(** * Weverse API proxy: the authenticated client, the TTL cache and the
      cache middleware, embedded from the JavaScript sources.

    - [JS]           the fragment of JavaScript values the code inspects
    - [NodeCache]    the store of the node-cache package used by lib/cache.js
    - [Cache]        lib/cache.js
    - [Client]       lib/weverseClient.js
    - [Server]       the cache middleware of index.js
    - [Env]          the .env reader of lib/weverseClient.js
    - [Routes]       the JSON routes, the login route and the flush route
                     of index.js                                             *)

From stdpp Require Import base option list strings gmap fin_maps.
From Stdlib Require Import ZArith Lia Ascii.

#[local] Set Warnings "-register-all".

Local Open Scope string_scope.
Local Open Scope Z_scope.
Local Open Scope list_scope.

(* ===================================================================== *)
(** ** JavaScript values *)
(* ===================================================================== *)

Module JS.

(** JSON-like values.  Numbers are restricted to integers; strings are
    kept as their UTF-8 bytes. *)
Inductive jsval : Type :=
| JUndefined
| JNull
| JBool (b : bool)
| JNum (n : Z)
| JStr (s : string)
| JArr (items : list jsval)
| JObj (fields : list (string * jsval)).

(** [if (v)]: undefined, null, false, 0 and the empty string are falsy. *)
Definition truthy (v : jsval) : bool :=
  match v with
  | JUndefined | JNull => false
  | JBool b => b
  | JNum n => negb (n =? 0)
  | JStr s => negb (String.eqb s "")
  | JArr _ | JObj _ => true
  end.

(** [a || b] *)
Definition js_or (a b : jsval) : jsval := if truthy a then a else b.

(** [name in fields], for the own properties of an object. *)
Definition has_field (name : string) (fields : list (string * jsval)) : bool :=
  existsb (λ kv, String.eqb kv.1 name) fields.

(** Whether the string conversion of a template literal [`${v}`] returns.
    It throws a [TypeError] for an object whose own property [toString]
    hides [Object.prototype.toString] (a value read from JSON is never
    callable, and [valueOf] does not give a primitive), and for an array one
    of whose elements cannot be converted; every other value has a string. *)
Fixpoint stringifies (v : jsval) : bool :=
  match v with
  | JObj fields => negb (has_field "toString" fields)
  | JArr items =>
      (fix all (l : list jsval) : bool :=
         match l with
         | [] => true
         | x :: r => stringifies x && all r
         end) items
  | _ => true
  end.

(** Errors as the code inspects them: [error.message] and, for an HTTP
    error answered by the server, [error.response.status] and
    [error.response.data].  A network failure or a timeout has no
    [response]; neither has an [Error] or [TypeError] raised locally. *)
Record http_response : Type := mkResponse {
  status : Z;
  data : jsval
}.

Record js_error : Type := mkError {
  message : string;
  response : option http_response
}.

(** [new Error(msg)] *)
Definition Error (msg : string) : js_error :=
  {| message := msg; response := None |}.

(** The outcome of evaluating an expression or awaiting a promise. *)
Inductive outcome (A : Type) : Type :=
| Return (a : A)
| Throw (e : js_error).
Arguments Return {A} a.
Arguments Throw {A} e.

(** Property read [v.name]: a [TypeError] on undefined and null, the bound
    value on an object, undefined otherwise. *)
Fixpoint lookup_field (name : string) (fields : list (string * jsval)) : jsval :=
  match fields with
  | [] => JUndefined
  | (k, x) :: rest => if String.eqb k name then x else lookup_field name rest
  end.

Definition prop (v : jsval) (name : string) : outcome jsval :=
  match v with
  | JUndefined =>
      Throw (Error ("Cannot read properties of undefined (reading '" +:+ name +:+ "')"))
  | JNull =>
      Throw (Error ("Cannot read properties of null (reading '" +:+ name +:+ "')"))
  | JObj fields => Return (lookup_field name fields)
  | _ => Return JUndefined
  end.

(** Upper case for the letters a-z; other characters are left as they
    are.  This is what [String.prototype.toUpperCase] does on a string of
    ASCII characters. *)
Definition upper_ascii (c : Ascii.ascii) : Ascii.ascii :=
  let n := Ascii.nat_of_ascii c in
  if ((97 <=? n) && (n <=? 122))%nat then Ascii.ascii_of_nat (n - 32) else c.

Fixpoint ascii_toUpperCase (s : string) : string :=
  match s with
  | EmptyString => EmptyString
  | String c rest => String (upper_ascii c) (ascii_toUpperCase rest)
  end.

(** All characters of the string are ASCII (below 128). *)
Fixpoint is_ascii (s : string) : bool :=
  match s with
  | EmptyString => true
  | String c rest => (Ascii.nat_of_ascii c <? 128)%nat && is_ascii rest
  end.

End JS.
Import JS.

(* ===================================================================== *)
(** ** The node-cache store *)
(* ===================================================================== *)

(** lib/cache.js delegates to the node-cache package, created with
    [useClones: false] and the default [deleteOnExpire: true].  The store is
    embedded after the package's [_wrap], [_check], [get], [set], [del],
    [flushAll] and [_checkData]; the clock [Date.now()] is the argument
    [now], in milliseconds. *)
Module NodeCache.

(** A stored entry [{ v: value, t: livetime }]; [t = 0] means no expiry. *)
Record wrapped : Type := mkWrapped {
  v : jsval;
  t : Z
}.

Record store : Type := mkStore {
  entries : gmap string wrapped;
  stdTTL : Z;
  hits : nat;
  misses : nat
}.

Definition create (ttlSeconds : Z) : store :=
  {| entries := ∅; stdTTL := ttlSeconds; hits := 0; misses := 0 |}.

(** [_wrap(value, ttl)]:
    [if (ttl === 0) livetime = 0; else if (ttl) livetime = now + ttl * 1000].
    A ttl of 0 stores the entry without expiry. *)
Definition wrap (now : Z) (value : jsval) (ttl : Z) : wrapped :=
  if ttl =? 0 then {| v := value; t := 0 |}
  else {| v := value; t := now + ttl * 1000 |}.

(** The test of [_check], [data.t !== 0 && data.t < Date.now()]: the entry
    has a livetime and it lies in the past. *)
Definition expired (now : Z) (d : wrapped) : bool :=
  negb (t d =? 0) && (t d <? now).

Definition del (key : string) (c : store) : store :=
  {| entries := base.delete key (entries c); stdTTL := stdTTL c;
     hits := hits c; misses := misses c |}.

(** [_check(key, data)]: an expired entry is deleted and reported. *)
Definition check (now : Z) (key : string) (d : wrapped) (c : store) : bool * store :=
  if expired now d then (false, del key c) else (true, c).

(** [get(key)]: the value of a live entry, otherwise undefined. *)
Definition get (now : Z) (key : string) (c : store) : jsval * store :=
  match entries c !! key with
  | Some d =>
      let (live, c') := check now key d c in
      if live then
        (v d, {| entries := entries c'; stdTTL := stdTTL c';
                 hits := S (hits c'); misses := misses c' |})
      else
        (JUndefined, {| entries := entries c'; stdTTL := stdTTL c';
                        hits := hits c'; misses := S (misses c') |})
  | None =>
      (JUndefined, {| entries := entries c; stdTTL := stdTTL c;
                      hits := hits c; misses := S (misses c) |})
  end.

(** [set(key, value, ttl)]: a missing ttl falls back to [stdTTL]; the entry
    replaces any previous one under the key.  Returns true. *)
Definition set (now : Z) (key : string) (value : jsval) (ttl : option Z)
    (c : store) : bool * store :=
  let ttl' := default (stdTTL c) ttl in
  (true, {| entries := <[key := wrap now value ttl']> (entries c);
            stdTTL := stdTTL c; hits := hits c; misses := misses c |}).

Definition flushAll (c : store) : store :=
  {| entries := ∅; stdTTL := stdTTL c; hits := 0; misses := 0 |}.

(** [_checkData]: the periodic sweep runs [_check] on every entry. *)
Definition checkData (now : Z) (c : store) : store :=
  {| entries := filter (λ kd, expired now kd.2 = false) (entries c);
     stdTTL := stdTTL c; hits := hits c; misses := misses c |}.

End NodeCache.

(* ===================================================================== *)
(** ** lib/cache.js *)
(* ===================================================================== *)

Module Cache.

(** Standard TTL: five minutes. *)
Definition DEFAULT_TTL : Z := 300.

(** [constructor(ttlSeconds = DEFAULT_TTL)] *)
Definition create (ttlSeconds : option Z) : NodeCache.store :=
  NodeCache.create (default DEFAULT_TTL ttlSeconds).

(** [get(key)]: the stored value when it is truthy, otherwise null. *)
Definition get (now : Z) (key : string) (c : NodeCache.store)
    : jsval * NodeCache.store :=
  let (value, c') := NodeCache.get now key c in
  if truthy value then (value, c') else (JNull, c').

(** [set(key, value, ttl = DEFAULT_TTL)]; [None] is an omitted argument. *)
Definition set (now : Z) (key : string) (value : jsval) (ttl : option Z)
    (c : NodeCache.store) : bool * NodeCache.store :=
  NodeCache.set now key value (Some (default DEFAULT_TTL ttl)) c.

Definition delete (key : string) (c : NodeCache.store) : NodeCache.store :=
  NodeCache.del key c.

Definition flush (c : NodeCache.store) : NodeCache.store :=
  NodeCache.flushAll c.

(** [static generateKey(namespace, identifier)] *)
Definition generateKey (namespace identifier : string) : string :=
  namespace +:+ ":" +:+ identifier.

(** The exported singleton [new Cache()]. *)
Definition instance : NodeCache.store := create None.

End Cache.

(* ===================================================================== *)
(** ** lib/weverseClient.js *)
(* ===================================================================== *)

Module Client.

(** The Authorization header [`Bearer ${tok}`], kept as the token it was
    built from. *)
Inductive header : Type :=
| Bearer (tok : jsval).

(** The HTTP requests of the client.  [ApiGet] is a call through
    [this.axiosInstance] (base URL https://weverse.io/api) and carries the
    instance's current [Authorization] header; the login and token calls go
    through plain [axios] to the account server.  The fixed browser headers
    are the same on every request and are left out. *)
Inductive http_request : Type :=
| ApiGet (path : string) (params : list (string * jsval)) (auth : option header)
| AccountGet (url : string)
| AccountPost (url : string) (body : list (string * jsval)).

(** What the client relies on and the repository does not define.  The
    platform: the answer to a request may depend on the request and on how
    many requests were sent before it ([Return] for a 2xx answer, [Throw] for
    a rejected promise).  The crypto library: [rsa_oaep] is
    [forge.util.encode64(key.encrypt(password, 'RSA-OAEP'))].  The runtime:
    [toUpperCase] is [String.prototype.toUpperCase], known on strings of ASCII
    characters and left open on the others. *)
Record upstream : Type := mkUpstream {
  respond : nat -> http_request -> outcome http_response;
  rsa_oaep : string -> outcome string;
  toUpperCase : string -> string;
  toUpperCase_ascii : ∀ s, is_ascii s = true -> toUpperCase s = ascii_toUpperCase s
}.

(** The client object, together with the requests it has sent (oldest first)
    and the number of times [refreshAccessToken] was entered. *)
Record client : Type := mkClient {
  token : jsval;
  refreshToken : jsval;
  authorization : option header;
  sent : list http_request;
  refreshCalls : nat
}.

(** The template literal [`Bearer ${tok}`]: it throws when [tok] has no
    string. *)
Definition bearer (tok : jsval) : outcome header :=
  if stringifies tok then Return (Bearer tok)
  else Throw (Error "Cannot convert object to primitive value").

(** [constructor()], given [process.env.WEVERSE_API_TOKEN], a string when
    the variable is set. *)
Definition create (env_token : option string) : client :=
  let tok := js_or (from_option JStr JUndefined env_token) JNull in
  {| token := tok;
     refreshToken := JNull;
     authorization := if truthy tok then Some (Bearer tok) else None;
     sent := [];
     refreshCalls := 0 |}.

Definition LOGIN_INITIALIZE_URL : string :=
  "https://account.weverse.io/api/v3/web/login/initialize".
Definition LOGIN_SECURE_URL : string :=
  "https://account.weverse.io/api/v3/web/login/secure".
Definition TOKEN_URL : string :=
  "https://account.weverse.io/api/v3/web/token".
Definition CLIENT_ID : jsval := JStr "weverse-app".
Definition CLIENT_SECRET : jsval := JStr "a6ba69b8d6f15ab3e6b6bca8051fe6ec".

(** *** Statements of an async method: state and exceptions *)

Definition M (A : Type) : Type := client -> outcome A * client.

Definition ret {A} (a : A) : M A := λ st, (Return a, st).

Definition bind {A B} (m : M A) (k : A -> M B) : M B :=
  λ st, match m st with
        | (Return a, st') => k a st'
        | (Throw e, st') => (Throw e, st')
        end.

Notation "'let*' x ':=' m 'in' k" := (bind m (λ x, k))
  (at level 10, x name, m at level 100, k at level 200).

(** [try { body } catch (error) { handler }] *)
Definition try_catch {A} (body : M A) (handler : js_error -> M A) : M A :=
  λ st, match body st with
        | (Return a, st') => (Return a, st')
        | (Throw e, st') => handler e st'
        end.

(** An expression that may throw. *)
Definition eval {A} (o : outcome A) : M A := λ st, (o, st).

Definition this : M client := λ st, (Return st, st).

Definition assign_token (x : jsval) : M unit :=
  λ st, (Return tt, {| token := x; refreshToken := refreshToken st;
                       authorization := authorization st; sent := sent st;
                       refreshCalls := refreshCalls st |}).

Definition assign_refreshToken (x : jsval) : M unit :=
  λ st, (Return tt, {| token := token st; refreshToken := x;
                       authorization := authorization st; sent := sent st;
                       refreshCalls := refreshCalls st |}).

Definition assign_authorization (h : header) : M unit :=
  λ st, (Return tt, {| token := token st; refreshToken := refreshToken st;
                       authorization := Some h; sent := sent st;
                       refreshCalls := refreshCalls st |}).

Definition enter_refresh : M unit :=
  λ st, (Return tt, {| token := token st; refreshToken := refreshToken st;
                       authorization := authorization st; sent := sent st;
                       refreshCalls := S (refreshCalls st) |}).

Section WithUpstream.

Variable w : upstream.

(** [await] of a request: it is appended to the wire trace and the
    platform's answer is its outcome. *)
Definition await_request (req : http_request) : M http_response :=
  λ st, (respond w (length (sent st)) req,
         {| token := token st; refreshToken := refreshToken st;
            authorization := authorization st; sent := sent st ++ [req];
            refreshCalls := refreshCalls st |}).

(** [await this.axiosInstance.get(path, { params })] *)
Definition axiosInstance_get (path : string) (params : list (string * jsval))
    : M http_response :=
  let* st := this in await_request (ApiGet path params (authorization st)).

(** [async login(email, password)] *)
Definition login (email password : string) : M bool :=
  try_catch
    (let* initResponse := await_request (AccountGet LOGIN_INITIALIZE_URL) in
     let* encryptedPassword := eval (rsa_oaep w password) in
     let* loginResponse := await_request
       (AccountPost LOGIN_SECURE_URL
          [("email", JStr email);
           ("password", JStr encryptedPassword);
           ("client_id", CLIENT_ID);
           ("client_secret", CLIENT_SECRET);
           ("grant_type", JStr "password")]) in
     let* access_token := eval (prop (data loginResponse) "access_token") in
     if truthy access_token then
       let* _ := assign_token access_token in
       let* refresh_token := eval (prop (data loginResponse) "refresh_token") in
       let* _ := assign_refreshToken refresh_token in
       let* bearer_token := eval (bearer access_token) in
       let* _ := assign_authorization bearer_token in
       ret true
     else
       ret false)
    (λ error, ret false).

(** [async refreshAccessToken()] *)
Definition refreshAccessToken : M bool :=
  let* _ := enter_refresh in
  try_catch
    (let* st := this in
     if negb (truthy (refreshToken st)) then
       ret false
     else
       let* response := await_request
         (AccountPost TOKEN_URL
            [("grant_type", JStr "refresh_token");
             ("client_id", CLIENT_ID);
             ("client_secret", CLIENT_SECRET);
             ("refresh_token", refreshToken st)]) in
       let* access_token := eval (prop (data response) "access_token") in
       if truthy access_token then
         let* _ := assign_token access_token in
         let* refresh_token := eval (prop (data response) "refresh_token") in
         let* _ := (if truthy refresh_token
                    then assign_refreshToken refresh_token
                    else ret tt) in
         let* bearer_token := eval (bearer access_token) in
         let* _ := assign_authorization bearer_token in
         ret true
       else
         ret false)
    (λ error, ret false).

(** *** The resource operations *)

(** The seven read methods have one shape: a GET through the instance,
    and a catch block that refreshes on 401 and calls the method again.
    [operation] names a method with its arguments; an omitted argument is
    [None]. *)
Inductive operation : Type :=
| GetCommunities
| GetPost (postId : string)
| GetNotifications (page size : option jsval)
| GetPosts (communityId : string) (page size : option jsval) (type : option string)
| GetArtists (communityId : string)
| GetMedia (postId : string)
| GetComments (postId : string) (page size : option jsval).

(** A default parameter value applies to an omitted or undefined argument. *)
Definition or_default (d : jsval) (a : option jsval) : jsval :=
  match a with
  | None | Some JUndefined => d
  | Some x => x
  end.

(** The [params] object of [getPosts]. *)
Definition getPosts_params (page size : option jsval) (type : option string)
    : list (string * jsval) :=
  let page := or_default (JNum 1) page in
  let size := or_default (JNum 20) size in
  let type := default "all" type in
  let params := [("page", page); ("size", size); ("sort", JStr "RECENT")] in
  if negb (String.eqb type "") && negb (String.eqb type "all")
  then params ++ [("type", JStr (toUpperCase w type))]
  else params.

Definition path_of (op : operation) : string :=
  match op with
  | GetCommunities => "/v1/communities"
  | GetPost postId => "/v1/post/" +:+ postId
  | GetNotifications _ _ => "/v1/notification"
  | GetPosts communityId _ _ _ => "/v1/community/" +:+ communityId +:+ "/posts"
  | GetArtists communityId => "/v1/community/" +:+ communityId +:+ "/artists"
  | GetMedia postId => "/v1/post/" +:+ postId +:+ "/media"
  | GetComments postId _ _ => "/v1/post/" +:+ postId +:+ "/comments"
  end.

Definition params_of (op : operation) : list (string * jsval) :=
  match op with
  | GetNotifications page size =>
      [("page", or_default (JNum 1) page); ("size", or_default (JNum 20) size)]
  | GetPosts _ page size type => getPosts_params page size type
  | GetComments _ page size =>
      [("page", or_default (JNum 1) page); ("size", or_default (JNum 20) size);
       ("sort", JStr "RECENT")]
  | _ => []
  end.

(** The context put in front of the cause: "Failed to get posts: ...". *)
Definition context_of (op : operation) : string :=
  match op with
  | GetCommunities => "Failed to get communities"
  | GetPost _ => "Failed to get post"
  | GetNotifications _ _ => "Failed to get notifications"
  | GetPosts _ _ _ _ => "Failed to get posts"
  | GetArtists _ => "Failed to get artists"
  | GetMedia _ => "Failed to get media"
  | GetComments _ _ _ => "Failed to get comments"
  end.

Definition wrapped_error (op : operation) (error : js_error) : js_error :=
  Error (context_of op +:+ ": " +:+ message error).

(** [error.response && error.response.status === 401] *)
Definition is_401 (error : js_error) : bool :=
  match response error with
  | Some r => status r =? 401
  | None => false
  end.

(** One method call.  The call made again after a successful refresh is a
    new invocation of the same method; [fuel] bounds the number of
    invocations and [None] means that the bound was reached before the
    promise settled. *)
Fixpoint invoke (fuel : nat) (op : operation) (st : client)
    : option (outcome jsval * client) :=
  match fuel with
  | O => None
  | S fuel' =>
      match axiosInstance_get (path_of op) (params_of op) st with
      | (Return response, st1) => Some (Return (data response), st1)
      | (Throw error, st1) =>
          if is_401 error then
            match refreshAccessToken st1 with
            | (Return true, st2) => invoke fuel' op st2
            | (Return false, st2) => Some (Throw (wrapped_error op error), st2)
            | (Throw e, st2) => Some (Throw e, st2)
            end
          else Some (Throw (wrapped_error op error), st1)
      end
  end.

Definition getCommunities (fuel : nat) := invoke fuel GetCommunities.
Definition getPost (fuel : nat) (postId : string) := invoke fuel (GetPost postId).
Definition getNotifications (fuel : nat) (page size : option jsval) :=
  invoke fuel (GetNotifications page size).
Definition getPosts (fuel : nat) (communityId : string)
    (page size : option jsval) (type : option string) :=
  invoke fuel (GetPosts communityId page size type).
Definition getArtists (fuel : nat) (communityId : string) :=
  invoke fuel (GetArtists communityId).
Definition getMedia (fuel : nat) (postId : string) := invoke fuel (GetMedia postId).
Definition getComments (fuel : nat) (postId : string) (page size : option jsval) :=
  invoke fuel (GetComments postId page size).

End WithUpstream.

(** *** Observations on the wire trace *)

Definition is_api_get (r : http_request) : bool :=
  match r with ApiGet _ _ _ => true | _ => false end.

Definition is_token_post (r : http_request) : bool :=
  match r with
  | AccountPost url _ => String.eqb url TOKEN_URL
  | _ => false
  end.

(** Number of resource calls and of token exchanges among the requests. *)
Definition resource_calls (l : list http_request) : nat :=
  length (filter (λ r, is_api_get r = true) l).

Definition token_exchanges (l : list http_request) : nat :=
  length (filter (λ r, is_token_post r = true) l).

End Client.

(* ===================================================================== *)
(** ** index.js: the cache middleware *)
(* ===================================================================== *)

Module Server.

(** The fields of [req] the middleware reads; [None] is undefined. *)
Record request : Type := mkRequest {
  originalUrl : option string;
  url : string
}.

Inductive sent_body : Type :=
| JsonBody (data : jsval)
| TextBody (text : string).

(** The response object: [json_hook] is [Some key] once [res.json] has been
    replaced by the caching wrapper for [key]. *)
Record response : Type := mkRes {
  statusCode : Z;
  headers : list (string * string);
  body : option sent_body;
  json_hook : option string
}.

(** A fresh Express response. *)
Definition new_response : response :=
  {| statusCode := 200; headers := []; body := None; json_hook := None |}.

(** What the route handler behind the middleware does with [res], in order.
    [Wait] is time passing while the handler awaits the client; [Send] is
    [res.send] of a string body. *)
Inductive res_call : Type :=
| Wait (ms : Z)
| Status (code : Z)
| SetHeader (name value : string)
| Json (data : jsval)
| Send (text : string).

(** The response under way, the shared cache and the clock. *)
Record exchange : Type := mkExchange {
  res : response;
  cache : NodeCache.store;
  clock : Z
}.

(** [req.originalUrl || req.url] *)
Definition target (req : request) : string :=
  match originalUrl req with
  | Some u => if String.eqb u "" then url req else u
  | None => url req
  end.

Definition request_key (namespace : string) (req : request) : string :=
  Cache.generateKey namespace (target req).

(** Sending a body; the first body sent is the response. *)
Definition deliver (b : sent_body) (r : response) : response :=
  match body r with
  | Some _ => r
  | None => {| statusCode := statusCode r; headers := headers r;
               body := Some b; json_hook := json_hook r |}
  end.

(** [res.json(data)]: the original method, or the wrapper installed by the
    middleware, which stores the data when the status code is 200 and then
    calls the original. *)
Definition res_json (data : jsval) (x : exchange) : exchange :=
  match json_hook (res x) with
  | Some key =>
      let cache' :=
        if statusCode (res x) =? 200
        then (Cache.set (clock x) key data None (cache x)).2
        else cache x in
      {| res := deliver (JsonBody data) (res x); cache := cache'; clock := clock x |}
  | None =>
      {| res := deliver (JsonBody data) (res x); cache := cache x; clock := clock x |}
  end.

Definition call (c : res_call) (x : exchange) : exchange :=
  match c with
  | Wait ms => {| res := res x; cache := cache x; clock := clock x + ms |}
  | Status code =>
      {| res := {| statusCode := code; headers := headers (res x);
                   body := body (res x); json_hook := json_hook (res x) |};
         cache := cache x; clock := clock x |}
  | SetHeader name value =>
      {| res := {| statusCode := statusCode (res x);
                   headers := (name, value) :: headers (res x);
                   body := body (res x); json_hook := json_hook (res x) |};
         cache := cache x; clock := clock x |}
  | Json data => res_json data x
  | Send text =>
      {| res := deliver (TextBody text) (res x); cache := cache x; clock := clock x |}
  end.

Fixpoint run (calls : list res_call) (x : exchange) : exchange :=
  match calls with
  | [] => x
  | c :: rest => run rest (call c x)
  end.

(** [cacheMiddleware(namespace)(req, res, next)], where [next] is the rest
    of the chain. *)
Definition cacheMiddleware (namespace : string) (req : request)
    (next : list res_call) (x : exchange) : exchange :=
  let key := request_key namespace req in
  let (cachedData, cache1) := Cache.get (clock x) key (cache x) in
  if truthy cachedData then
    res_json cachedData {| res := res x; cache := cache1; clock := clock x |}
  else
    run next
      {| res := {| statusCode := statusCode (res x); headers := headers (res x);
                   body := body (res x); json_hook := Some key |};
         cache := cache1; clock := clock x |}.

(** The [res.json] calls made while the status code is 200, each with the
    time at which it is made. *)
Fixpoint json_calls_at_200 (code now : Z) (calls : list res_call) : list (Z * jsval) :=
  match calls with
  | [] => []
  | Wait ms :: rest => json_calls_at_200 code (now + ms) rest
  | Status code' :: rest => json_calls_at_200 code' now rest
  | Json data :: rest =>
      if code =? 200 then (now, data) :: json_calls_at_200 code now rest
      else json_calls_at_200 code now rest
  | _ :: rest => json_calls_at_200 code now rest
  end.

(** The store after the given writes under [key], oldest first. *)
Definition written (key : string) (writes : list (Z * jsval)) (c : NodeCache.store)
    : NodeCache.store :=
  fold_left (λ c' w, (Cache.set w.1 key w.2 None c').2) writes c.

End Server.

(* ===================================================================== *)
(** ** Notions used in the statements *)
(* ===================================================================== *)

Import Client.

(** The client after sending further requests. *)
Definition after_sending (st : client) (l : list http_request) : client :=
  {| token := token st; refreshToken := refreshToken st;
     authorization := authorization st; sent := sent st ++ l;
     refreshCalls := refreshCalls st |}.

(** The resource request of an operation in a given client state. *)
Definition request_of (w : upstream) (op : operation) (st : client) : http_request :=
  ApiGet (path_of op) (params_of w op) (authorization st).

(** The token state of the session. *)
Definition session (st : client) : jsval * jsval * option header :=
  (token st, refreshToken st, authorization st).

(** [retried w op n st st']: starting in [st], [n] invocations of [op] in a
    row were answered 401 and each was followed by a successful
    [refreshAccessToken], leaving the client in [st']. *)
Inductive retried (w : upstream) (op : operation) : nat -> client -> client -> Prop :=
| retried_O st : retried w op 0 st st
| retried_S n st error st2 st3 :
    respond w (length (sent st)) (request_of w op st) = Throw error ->
    is_401 error = true ->
    refreshAccessToken w (after_sending st [request_of w op st]) = (Return true, st2) ->
    retried w op n st2 st3 ->
    retried w op (S n) st st3.

(** A 401 answer. *)
Definition unauthorized : js_error :=
  {| message := "Request failed with status code 401";
     response := Some {| status := 401; data := JObj [("message", JStr "Unauthorized")] |} |}.

(** A token answer of the account server. *)
Definition token_pair (access refresh : string) : http_response :=
  {| status := 200;
     data := JObj [("access_token", JStr access); ("refresh_token", JStr refresh)] |}.

(** A logged-in client. *)
Definition logged_in : client :=
  {| token := JStr "A0"; refreshToken := JStr "R0";
     authorization := Some (Bearer (JStr "A0")); sent := []; refreshCalls := 0 |}.

(** A request as the middleware first sees it: nothing sent yet, status 200
    and the original [res.json]. *)
Definition incoming (c : NodeCache.store) (now : Z) : Server.exchange :=
  {| Server.res := Server.new_response; Server.cache := c; Server.clock := now |}.

(** The handler of the RSS route on success: it awaits the client, sets the
    content type and sends the feed with [res.send]. *)
Definition rss_handler : list Server.res_call :=
  [Server.Wait 350; Server.SetHeader "Content-Type" "application/xml";
   Server.Send "<rss version='2.0'/>"].

(** The client [logged_in] after one resource call and a granted exchange. *)
Definition refreshed_once (w : upstream) (op : operation) : client :=
  {| token := JStr "A1"; refreshToken := JStr "R1";
     authorization := Some (Bearer (JStr "A1"));
     sent := [ApiGet (path_of op) (params_of w op) (Some (Bearer (JStr "A0")));
              AccountPost TOKEN_URL
                [("grant_type", JStr "refresh_token");
                 ("client_id", CLIENT_ID);
                 ("client_secret", CLIENT_SECRET);
                 ("refresh_token", JStr "R0")]];
     refreshCalls := 1 |}.

(** A list of communities as the platform returns it. *)
Definition communities_payload : jsval :=
  JArr [JObj [("id", JNum 1); ("name", JStr "BTS")]].

(** The error of a request that timed out: no response. *)
Definition timeout_error : js_error := Error "timeout of 10000ms exceeded".

(** The client on entry to [refreshAccessToken]. *)
Definition entered (st : client) : client :=
  {| token := token st; refreshToken := refreshToken st;
     authorization := authorization st; sent := sent st;
     refreshCalls := S (refreshCalls st) |}.

(** The token exchange request of [refreshAccessToken]. *)
Definition token_request (st : client) : http_request :=
  AccountPost TOKEN_URL
    [("grant_type", JStr "refresh_token");
     ("client_id", CLIENT_ID);
     ("client_secret", CLIENT_SECRET);
     ("refresh_token", refreshToken st)].

(** The credentials request of [login]. *)
Definition login_request (email encryptedPassword : string) : http_request :=
  AccountPost LOGIN_SECURE_URL
    [("email", JStr email);
     ("password", JStr encryptedPassword);
     ("client_id", CLIENT_ID);
     ("client_secret", CLIENT_SECRET);
     ("grant_type", JStr "password")].

(** [response.data.name] where a failed read counts as undefined. *)
Definition field (r : http_response) (name : string) : jsval :=
  match prop (data r) name with
  | Return x => x
  | Throw _ => JUndefined
  end.


(** A platform that answers 401 to every resource call sent before request
    number [good_from] and 200 with [payload] afterwards, and that grants
    every login and token exchange. *)
Definition expiring_platform (good_from : nat) (payload : jsval) : upstream :=
  {| respond n req :=
       match req with
       | ApiGet _ _ _ =>
           if (n <? good_from)%nat then Throw unauthorized
           else Return {| status := 200; data := payload |}
       | AccountGet _ => Return {| status := 200; data := JObj [] |}
       | AccountPost _ _ => Return (token_pair "A1" "R1")
       end;
     rsa_oaep password := Return "b64-ciphertext";
     toUpperCase := ascii_toUpperCase;
     toUpperCase_ascii s _ := eq_refl |}.

(** A platform that answers 401 to every resource call and grants every
    token exchange. *)
Definition rejecting_platform : upstream :=
  {| respond n req :=
       match req with
       | ApiGet _ _ _ => Throw unauthorized
       | AccountGet _ => Return {| status := 200; data := JObj [] |}
       | AccountPost _ _ => Return (token_pair "A1" "R1")
       end;
     rsa_oaep password := Return "b64-ciphertext";
     toUpperCase := ascii_toUpperCase;
     toUpperCase_ascii s _ := eq_refl |}.

(** A platform that fails every request with the given error. *)
Definition failing_platform (error : js_error) : upstream :=
  {| respond n req := Throw error;
     rsa_oaep password := Return "b64-ciphertext";
     toUpperCase := ascii_toUpperCase;
     toUpperCase_ascii s _ := eq_refl |}.

(** An answer whose access token is an object with a property [toString]:
    it is truthy and has no string. *)
Definition unconvertible_token_answer : http_response :=
  {| status := 200;
     data := JObj [("access_token", JObj [("toString", JNum 1)]);
                   ("refresh_token", JStr "R9")] |}.

(** A platform that accepts every login and token exchange with that
    answer. *)
Definition unconvertible_token_platform : upstream :=
  {| respond n req :=
       match req with
       | ApiGet _ _ _ => Throw unauthorized
       | AccountGet _ => Return {| status := 200; data := JObj [] |}
       | AccountPost _ _ => Return unconvertible_token_answer
       end;
     rsa_oaep password := Return "b64-ciphertext";
     toUpperCase := ascii_toUpperCase;
     toUpperCase_ascii s _ := eq_refl |}.

(** A platform whose token exchange returns a new access token only. *)
Definition access_only_platform : upstream :=
  {| respond n req :=
       Return {| status := 200; data := JObj [("access_token", JStr "A1")] |};
     rsa_oaep password := Return "b64-ciphertext";
     toUpperCase := ascii_toUpperCase;
     toUpperCase_ascii s _ := eq_refl |}.

(* ===================================================================== *)
(** ** lib/weverseClient.js: reading .env by hand *)
(* ===================================================================== *)

Module Env.

(** [s.split(sep)] for a separator of one character: the pieces between the
    separators, the empty ones included. *)
Fixpoint split (sep : Ascii.ascii) (s : string) : list string :=
  match s with
  | EmptyString => [EmptyString]
  | String ch rest =>
      if Ascii.eqb ch sep then EmptyString :: split sep rest
      else match split sep rest with
           | [] => [String ch EmptyString]
           | piece :: pieces => String ch piece :: pieces
           end
  end.

(** The white space and line terminators that [trim] removes, in UTF-8:
    U+0009 to U+000D, U+0020, U+00A0, U+1680, U+2000 to U+200A, U+2028,
    U+2029, U+202F, U+205F, U+3000 and U+FEFF. *)
Definition white_space : list (list Ascii.ascii) :=
  [ ["009"]; ["010"]; ["011"]; ["012"]; ["013"]; ["032"];
    ["194"; "160"];
    ["225"; "154"; "128"];
    ["226"; "128"; "128"]; ["226"; "128"; "129"]; ["226"; "128"; "130"];
    ["226"; "128"; "131"]; ["226"; "128"; "132"]; ["226"; "128"; "133"];
    ["226"; "128"; "134"]; ["226"; "128"; "135"]; ["226"; "128"; "136"];
    ["226"; "128"; "137"]; ["226"; "128"; "138"];
    ["226"; "128"; "168"]; ["226"; "128"; "169"]; ["226"; "128"; "175"];
    ["226"; "129"; "159"];
    ["227"; "128"; "128"];
    ["239"; "187"; "191"] ]%char.

(** The rest of [l] after the prefix [p], if [l] starts with [p]. *)
Fixpoint drop_prefix (p l : list Ascii.ascii) : option (list Ascii.ascii) :=
  match p, l with
  | [], _ => Some l
  | a :: p', b :: l' => if Ascii.eqb a b then drop_prefix p' l' else None
  | _ :: _, [] => None
  end.

(** The rest of [l] after one leading character among [chars]. *)
Fixpoint drop_one (chars : list (list Ascii.ascii)) (l : list Ascii.ascii)
    : option (list Ascii.ascii) :=
  match chars with
  | [] => None
  | p :: others =>
      match drop_prefix p l with
      | Some rest => Some rest
      | None => drop_one others l
      end
  end.

(** [l] without its leading characters among [chars]; [n] bounds their
    number. *)
Fixpoint drop_leading (n : nat) (chars : list (list Ascii.ascii))
    (l : list Ascii.ascii) : list Ascii.ascii :=
  match n with
  | O => l
  | S n' =>
      match drop_one chars l with
      | Some rest => drop_leading n' chars rest
      | None => l
      end
  end.

Definition trimStart (s : string) : string :=
  let l := String.list_ascii_of_string s in
  String.string_of_list_ascii (drop_leading (length l) white_space l).

Definition trimEnd (s : string) : string :=
  let l := rev (String.list_ascii_of_string s) in
  String.string_of_list_ascii (rev (drop_leading (length l) (map (@rev _) white_space) l)).

(** [s.trim()] *)
Definition trim (s : string) : string := trimEnd (trimStart s).

(** The C string of [s]: what precedes its first NUL. *)
Fixpoint c_string (s : string) : string :=
  match s with
  | EmptyString => EmptyString
  | String ch rest =>
      if Ascii.eqb ch "000" then EmptyString else String ch (c_string rest)
  end.

(** [process.env[name] = value]: Node hands both to the system's [setenv]
    as C strings, and an empty name sets nothing. *)
Definition setenv (name value : string) (env : gmap string string)
    : gmap string string :=
  if String.eqb (c_string name) "" then env
  else <[c_string name := c_string value]> env.

(** The body of [envLines.forEach]: a line that is empty or starts with '#'
    is skipped; otherwise [const [key, value] = line.split('=')] and, when
    both are non-empty, [process.env[key.trim()] = value.trim()]. *)
Definition load_line (env : gmap string string) (line : string) : gmap string string :=
  if negb (String.eqb line "") && negb (String.prefix "#" line) then
    match split "="%char line with
    | key :: value :: _ =>
        if negb (String.eqb key "") && negb (String.eqb value "")
        then setenv (trim key) (trim value) env
        else env
    | _ => env
    end
  else env.

(** The file at [../.env]: absent, unreadable, or its text. *)
Inductive env_file : Type :=
| Missing
| Unreadable (e : js_error)
| Content (text : string).

(** [loadEnvManually()], on [process.env]. *)
Definition loadEnvManually (file : env_file) (env : gmap string string)
    : bool * gmap string string :=
  match file with
  | Content text => (true, fold_left load_line (split "010"%char text) env)
  | Missing => (false, env)
  | Unreadable _ => (false, env)
  end.

End Env.

(* ===================================================================== *)
(** ** index.js: the routes *)
(* ===================================================================== *)

Module Routes.

Import Server.

(** The [{ error: message }] bodies. *)
Definition error_body (msg : string) : jsval := JObj [("error", JStr msg)].

(** The [type] values that [schemas.pagination] accepts. *)
Inductive type_filter : Type := artist | fan | all.

Definition type_name (t : type_filter) : string :=
  match t with
  | artist => "artist"
  | fan => "fan"
  | all => "all"
  end.

(** The routes whose handler awaits one client operation and answers with
    [res.json]: each with the values its handler reads from [req.params] and
    from the validated [req.query], where [page] and [size] are integers and
    [type] is absent or one of the three accepted words.  (The rss and
    widget routes answer with [res.send] and are not among them.) *)
Inductive json_route : Type :=
| Communities
| Post (postId : string)
| Posts (communityId : string) (page size : Z) (type : option type_filter)
| Artists (communityId : string)
| Media (postId : string)
| Comments (postId : string) (page size : Z)
| Notifications (page size : Z).

(** The namespace given to [cacheMiddleware]; the notifications route has
    no cache middleware. *)
Definition namespace_of (route : json_route) : option string :=
  match route with
  | Communities => Some "communities"
  | Post _ => Some "post"
  | Posts _ _ _ _ => Some "posts"
  | Artists _ => Some "artists"
  | Media _ => Some "media"
  | Comments _ _ _ => Some "comments"
  | Notifications _ _ => None
  end.

(** The client call of the handler. *)
Definition operation_of (route : json_route) : operation :=
  match route with
  | Communities => GetCommunities
  | Post postId => GetPost postId
  | Posts communityId page size type =>
      GetPosts communityId (Some (JNum page)) (Some (JNum size)) (type_name <$> type)
  | Artists communityId => GetArtists communityId
  | Media postId => GetMedia postId
  | Comments postId page size => GetComments postId (Some (JNum page)) (Some (JNum size))
  | Notifications page size => GetNotifications (Some (JNum page)) (Some (JNum size))
  end.

(** The communities route has no validation middleware. *)
Definition is_validated (route : json_route) : bool :=
  match route with
  | Communities => false
  | _ => true
  end.

(** What a JSON route handler does with [res] once the client call has
    settled after [elapsed] milliseconds:
    [res.json(result)], or [res.status(500).json({ error: error.message })]
    in its catch block. *)
Definition handler_calls (elapsed : Z) (o : outcome jsval) : list res_call :=
  match o with
  | Return result => [Wait elapsed; Json result]
  | Throw error => [Wait elapsed; Status 500; Json (error_body (message error))]
  end.

(** [checkAuth]: without a token on the client the request is answered 401
    and the chain stops. *)
Definition checkAuth (st : client) (next : exchange -> option (client * exchange))
    (x : exchange) : option (client * exchange) :=
  if negb (truthy (token st)) then
    Some (st, run [Status 401; Json (error_body "Not authenticated with Weverse")] x)
  else next x.

(** [validateParams] / [validateQuery] / [validateBody]: [invalid] is the
    message of the first Joi error, [None] when the schemas accept. *)
Definition validate (invalid : option string) (st : client)
    (next : exchange -> option (client * exchange)) (x : exchange)
    : option (client * exchange) :=
  match invalid with
  | Some msg => Some (st, run [Status 400; Json (error_body msg)] x)
  | None => next x
  end.

(** The body of a POST as [express.json()] leaves it: not parsable, or
    parsed and then judged by [validateBody(schemas.login)]. *)
Inductive login_body : Type :=
| Unparsable
| Rejected (msg : string)
| Credentials (email password : string).

Section WithUpstream.

Variable w : upstream.

(** A JSON route, for a request that the rate limiter has let through to
    the router: [checkAuth, validate..., cacheMiddleware(namespace), handler].
    [invalid] is the verdict of the route's validation middlewares, in
    their order.  The cache middleware calls [next] on a miss only, so the
    client is invoked only then. *)
Definition api_route (fuel : nat) (route : json_route)
    (invalid : option string) (req : request) (elapsed : Z)
    (st : client) (x : exchange) : option (client * exchange) :=
  checkAuth st
    (validate (if is_validated route then invalid else None) st
       (λ x,
          match namespace_of route with
          | Some ns =>
              if truthy (Cache.get (clock x) (request_key ns req) (cache x)).1 then
                Some (st, cacheMiddleware ns req [] x)
              else
                match invoke w fuel (operation_of route) st with
                | Some (o, st') =>
                    Some (st', cacheMiddleware ns req (handler_calls elapsed o) x)
                | None => None
                end
          | None =>
              match invoke w fuel (operation_of route) st with
              | Some (o, st') => Some (st', run (handler_calls elapsed o) x)
              | None => None
              end
          end))
    x.

(** [POST /auth/login].  A body that [express.json()] cannot parse goes to
    the error middleware, which answers 500; a parsed body goes through
    [validateBody(schemas.login)] and then to the handler. *)
Definition auth_login_route (body : login_body) (st : client) (x : exchange)
    : client * exchange :=
  match body with
  | Unparsable => (st, run [Status 500; Json (error_body "Something went wrong!")] x)
  | Rejected msg => (st, run [Status 400; Json (error_body msg)] x)
  | Credentials email password =>
      match login w email password st with
      | (Return true, st') =>
          (st', run [Json (JObj [("message", JStr "Authentication successful")])] x)
      | (Return false, st') =>
          (st', run [Status 401; Json (error_body "Authentication failed")] x)
      | (Throw _, st') =>
          (st', run [Status 500; Json (error_body "Authentication failed")] x)
      end
  end.

End WithUpstream.

(** [DELETE /cache/flush]; [production] is
    [process.env.NODE_ENV === 'production']. *)
Definition cache_flush_route (production : bool) (x : exchange) : exchange :=
  if production then
    run [Status 403; Json (error_body "Not allowed in production")] x
  else
    run [Json (JObj [("message", JStr "Cache successfully flushed")])]
      {| res := res x; cache := Cache.flush (cache x); clock := clock x |}.

End Routes.

(* ===================================================================== *)
(** ** Further notions used in the statements *)
(* ===================================================================== *)

(** The character occurs in the string. *)
Fixpoint mentions (ch : Ascii.ascii) (s : string) : bool :=
  match s with
  | EmptyString => false
  | String c rest => Ascii.eqb c ch || mentions ch rest
  end.

(** The text of a file with the given lines. *)
Fixpoint text_of_lines (lines : list string) : string :=
  match lines with
  | [] => ""
  | [line] => line
  | line :: rest => line +:+ String "010" (text_of_lines rest)
  end.



(** A platform that answers every resource call with [payload] and fails
    everything else. *)
Definition serving_platform (payload : jsval) : upstream :=
  {| respond n req :=
       match req with
       | ApiGet _ _ _ => Return {| status := 200; data := payload |}
       | _ => Throw timeout_error
       end;
     rsa_oaep password := Return "b64-ciphertext";
     toUpperCase := ascii_toUpperCase;
     toUpperCase_ascii s _ := eq_refl |}.

(** A platform whose login answers with an access token and nothing else. *)
Definition access_only_login : http_response :=
  {| status := 200; data := JObj [("access_token", JStr "A1")] |}.

(* ===================================================================== *)
(** ** Properties of the cache *)
(* ===================================================================== *)

Section CacheProperties.

Implicit Types (key : string) (value : jsval) (c : NodeCache.store) (now : Z).

Example generateKey_posts :
  Cache.generateKey "posts" "/api/communities/7/posts?page=2"
  = "posts:/api/communities/7/posts?page=2".
Proof. reflexivity. Qed.

Example set_get_example :
  (Cache.get 1500 "k" (Cache.set 1000 "k" (JStr "x") None Cache.instance).2).1 = JStr "x".
Proof. vm_compute. reflexivity. Qed.

Example upper_example : ascii_toUpperCase "artist" = "ARTIST".
Proof. reflexivity. Qed.

Lemma append_assoc (a b d : string) : (a +:+ b) +:+ d = a +:+ b +:+ d.
Proof.
  induction a as [|ch a IH]; [done|].
  change (String ch ((a +:+ b) +:+ d) = String ch (a +:+ b +:+ d)).
  by rewrite IH.
Qed.

Lemma wrap_livetime now value ttl :
  NodeCache.t (NodeCache.wrap now value ttl) = (if ttl =? 0 then 0 else now + ttl * 1000)
  ∧ NodeCache.v (NodeCache.wrap now value ttl) = value.
Proof. unfold NodeCache.wrap. destruct (ttl =? 0); done. Qed.

(** Reading a key right after writing it sees the new entry, unless its
    livetime has passed. *)
Lemma node_get_after_set now now' key value ttl c :
  let d := NodeCache.wrap now value (default (NodeCache.stdTTL c) ttl) in
  (NodeCache.get now' key (NodeCache.set now key value ttl c).2).1
  = if NodeCache.expired now' d then JUndefined else value.
Proof.
  cbn zeta. unfold NodeCache.get, NodeCache.set, NodeCache.check. cbn [snd NodeCache.entries].
  rewrite lookup_insert_eq.
  destruct (NodeCache.expired _ _) eqn:He; cbn; [done|].
  apply wrap_livetime.
Qed.

Lemma node_get_expired_removes now now' key value ttl c :
  let d := NodeCache.wrap now value (default (NodeCache.stdTTL c) ttl) in
  NodeCache.expired now' d = true ->
  NodeCache.entries (NodeCache.get now' key (NodeCache.set now key value ttl c).2).2 !! key
  = None.
Proof.
  cbn zeta. intros He.
  unfold NodeCache.get, NodeCache.set, NodeCache.check. cbn [snd NodeCache.entries].
  rewrite lookup_insert_eq, He. cbn. apply lookup_delete_eq.
Qed.

Lemma cache_get_fst now key c :
  (Cache.get now key c).1
  = let value := (NodeCache.get now key c).1 in if truthy value then value else JNull.
Proof.
  unfold Cache.get. destruct (NodeCache.get now key c) as [value c']. cbn.
  destruct (truthy value); done.
Qed.

Lemma cache_get_snd now key c :
  (Cache.get now key c).2 = (NodeCache.get now key c).2.
Proof.
  unfold Cache.get. destruct (NodeCache.get now key c) as [value c']. cbn.
  destruct (truthy value); done.
Qed.

(** [Cache.get] never answers with a falsy value other than null. *)
Lemma cache_get_null_or_truthy now key c :
  (Cache.get now key c).1 = JNull ∨ truthy (Cache.get now key c).1 = true.
Proof.
  rewrite cache_get_fst. cbn zeta.
  destruct (truthy (NodeCache.get now key c).1) eqn:Ht; auto.
Qed.

(** A falsy value is written but never read back. *)
Lemma cache_falsy_reads_null now now' key value ttl c :
  truthy value = false ->
  (Cache.get now' key (Cache.set now key value ttl c).2).1 = JNull.
Proof.
  intros Hv. rewrite cache_get_fst. unfold Cache.set. cbn zeta.
  rewrite node_get_after_set. cbn zeta.
  destruct (NodeCache.expired _ _); [done|]. by rewrite Hv.
Qed.

(** An entry written with ttl 0 has no expiry. *)
Lemma cache_ttl_zero_is_forever now later key value c :
  (Cache.get later key (Cache.set now key value (Some 0) c).2).1
  = if truthy value then value else JNull.
Proof.
  rewrite cache_get_fst. unfold Cache.set. cbn zeta.
  rewrite node_get_after_set. cbn.
  destruct (truthy value); done.
Qed.

(** The periodic sweep removes what a read would report absent: it does
    not change the answer of [get]. *)
Lemma node_get_after_sweep now key c :
  (NodeCache.get now key (NodeCache.checkData now c)).1 = (NodeCache.get now key c).1.
Proof.
  unfold NodeCache.get, NodeCache.checkData, NodeCache.check. cbn [NodeCache.entries].
  destruct (NodeCache.entries c !! key) as [d|] eqn:Hd.
  - destruct (NodeCache.expired now d) eqn:He.
    + rewrite map_lookup_filter_None_2; [done|]. right. intros d' Hd' Hlive.
      cbn in Hlive. congruence.
    + rewrite (map_lookup_filter_Some_2 _ _ key d) by done.
      by rewrite He.
  - rewrite map_lookup_filter_None_2; [done|]. by left.
Qed.

(** A truthy value whose livetime has not passed is read back. *)
Lemma cache_get_set_live now now' key value ttl c :
  NodeCache.expired now' (NodeCache.wrap now value (default Cache.DEFAULT_TTL ttl)) = false ->
  truthy value = true ->
  (Cache.get now' key (Cache.set now key value ttl c).2).1 = value.
Proof.
  intros He Hv. rewrite cache_get_fst. unfold Cache.set. cbn zeta.
  rewrite node_get_after_set. cbn zeta. cbn [from_option id]. by rewrite He, Hv.
Qed.

Lemma default_ttl_live now now' value :
  now' <= now + Cache.DEFAULT_TTL * 1000 ->
  NodeCache.expired now' (NodeCache.wrap now value Cache.DEFAULT_TTL) = false.
Proof.
  intros Hnow. unfold NodeCache.expired, NodeCache.wrap, Cache.DEFAULT_TTL in *.
  cbn [Z.eqb NodeCache.t]. apply andb_false_iff. right. apply Z.ltb_ge. lia.
Qed.

(** C6, as amended: a truthy value written with [Cache.set(key, v)] and read
    with [Cache.get(key)] no later than 300 seconds afterwards is returned
    unchanged. *)
Theorem cache_round_trip key value now now' c :
  truthy value = true ->
  now' <= now + Cache.DEFAULT_TTL * 1000 ->
  (Cache.get now' key (Cache.set now key value None c).2).1 = value.
Proof.
  intros Hv Hnow. apply cache_get_set_live; [|done].
  by apply default_ttl_live.
Qed.

Lemma cache_round_trip_witness :
  (Cache.get 1200 "posts:/api/communities/7/posts"
     (Cache.set 1000 "posts:/api/communities/7/posts" (JObj [("data", JArr [])])
        None Cache.instance).2).1
  = JObj [("data", JArr [])].
Proof.
  apply (cache_round_trip "posts:/api/communities/7/posts" (JObj [("data", JArr [])])
           1000 1200 Cache.instance).
  - reflexivity.
  - unfold Cache.DEFAULT_TTL. lia.
Defined.

(** The round trip fails for a falsy value: 0 is stored, and the read that
    follows at once answers null. *)
Lemma cache_round_trip_counterexample :
  (Cache.get 1000 "k" (Cache.set 1000 "k" (JNum 0) None Cache.instance).2).1 = JNull
  ∧ (Cache.get 1000 "k" (Cache.set 1000 "k" (JNum 0) None Cache.instance).2).1 ≠ JNum 0.
Proof. split; [|intros H]; by vm_compute in *. Qed.

(** C7, as amended: for a ttl of [T > 0] seconds, an entry written with
    [Cache.set(key, v, T)] and read more than [T] seconds later is reported
    absent (and removed); a ttl of 0 means no expiry; without a ttl argument
    [set] uses 300 seconds. *)
Theorem cache_ttl_expiry key value T now now' c :
  0 < T -> 0 <= now -> now + T * 1000 < now' ->
  (Cache.get now' key (Cache.set now key value (Some T) c).2).1 = JNull
  ∧ NodeCache.entries (Cache.get now' key (Cache.set now key value (Some T) c).2).2 !! key = None
  ∧ Cache.set now key value None c = Cache.set now key value (Some 300) c
  ∧ ∀ later, (Cache.get later key (Cache.set now key value (Some 0) c).2).1
             = if truthy value then value else JNull.
Proof.
  intros HT Hnow Hlate.
  assert (He : NodeCache.expired now'
                 (NodeCache.wrap now value (default (NodeCache.stdTTL c) (Some T))) = true).
  { unfold NodeCache.expired.
    destruct (wrap_livetime now value (default (NodeCache.stdTTL c) (Some T))) as [-> _].
    cbn [from_option id]. replace (T =? 0) with false by (symmetry; apply Z.eqb_neq; lia).
    apply andb_true_iff; split.
    - apply negb_true_iff, Z.eqb_neq. lia.
    - apply Z.ltb_lt. lia. }
  repeat split.
  - rewrite cache_get_fst. unfold Cache.set. cbn zeta. cbn [from_option id].
    rewrite node_get_after_set. cbn zeta. by rewrite He.
  - rewrite cache_get_snd. unfold Cache.set. cbn [from_option id].
    by apply node_get_expired_removes.
  - intros later. apply cache_ttl_zero_is_forever.
Qed.

Lemma cache_ttl_expiry_witness :
  (Cache.get 61001 "k" (Cache.set 1000 "k" (JStr "x") (Some 60) Cache.instance).2).1 = JNull.
Proof.
  apply (cache_ttl_expiry "k" (JStr "x") 60 1000 61001 Cache.instance); lia.
Defined.

(** Expiry fails for a ttl of 0: the entry is still served a thousand
    seconds after it was written. *)
Lemma cache_ttl_expiry_counterexample :
  (Cache.get 1000001 "k" (Cache.set 1 "k" (JStr "x") (Some 0) Cache.instance).2).1
  = JStr "x".
Proof. by vm_compute. Qed.

(** C10: [generateKey] is not injective.  A colon may move between the
    namespace and the identifier, so two different pairs share one key and
    one cache entry. *)
Theorem generateKey_not_injective :
  ("a:b", "c") ≠ ("a", "b:c")
  ∧ Cache.generateKey "a:b" "c" = Cache.generateKey "a" "b:c"
  ∧ (∀ n1 n2 identifier,
       Cache.generateKey (n1 +:+ ":" +:+ n2) identifier
       = Cache.generateKey n1 (n2 +:+ ":" +:+ identifier))
  ∧ ∀ now c,
      (Cache.get now (Cache.generateKey "a" "b:c")
         (Cache.set now (Cache.generateKey "a:b" "c") (JStr "x") None c).2).1
      = JStr "x".
Proof.
  split; [discriminate|]. split; [reflexivity|]. split.
  - intros n1 n2 identifier. unfold Cache.generateKey. by rewrite !append_assoc.
  - intros now c. change (Cache.generateKey "a" "b:c") with (Cache.generateKey "a:b" "c").
    apply cache_get_set_live; [|done]. apply default_ttl_live.
    unfold Cache.DEFAULT_TTL. lia.
Qed.

End CacheProperties.

(* ===================================================================== *)
(** ** Properties of the session: login and refresh *)
(* ===================================================================== *)

Section SessionProperties.

Variable w : upstream.

Implicit Types (st : client) (op : operation).

Lemma length_sent_snoc st req : length (sent st ++ [req]) = S (length (sent st)).
Proof. rewrite length_app. cbn. lia. Qed.

(** Once [v.a] could be read, [v.b] can be read as well. *)
Lemma prop_readable v a b x : prop v a = Return x -> ∃ y, prop v b = Return y.
Proof. destruct v; cbn; intros H; try discriminate; eauto. Qed.

Lemma field_prop r name x : prop (data r) name = Return x -> field r name = x.
Proof. unfold field. by intros ->. Qed.

(** The branches of [refreshAccessToken]. *)
Lemma refresh_without_token st :
  truthy (refreshToken st) = false ->
  refreshAccessToken w st = (Return false, entered st).
Proof.
  intros H. unfold refreshAccessToken, bind, try_catch, enter_refresh, this, ret.
  cbn. by rewrite H.
Qed.

Lemma refresh_rejected st error :
  truthy (refreshToken st) = true ->
  respond w (length (sent st)) (token_request st) = Throw error ->
  refreshAccessToken w st = (Return false, after_sending (entered st) [token_request st]).
Proof.
  intros H Hr. unfold refreshAccessToken, bind, try_catch, enter_refresh, this, ret,
    await_request. cbn. rewrite H. cbn.
  unfold token_request in Hr. by rewrite Hr.
Qed.

Lemma refresh_not_granted st r :
  truthy (refreshToken st) = true ->
  respond w (length (sent st)) (token_request st) = Return r ->
  truthy (field r "access_token") = false ->
  refreshAccessToken w st = (Return false, after_sending (entered st) [token_request st]).
Proof.
  intros H Hr Hf. unfold refreshAccessToken, bind, try_catch, enter_refresh, this, ret,
    await_request, eval. cbn. rewrite H. cbn.
  unfold token_request in Hr. rewrite Hr.
  unfold field in Hf. destruct (prop (data r) "access_token") as [x|e]; [|done].
  by rewrite Hf.
Qed.

Lemma refresh_granted st r :
  truthy (refreshToken st) = true ->
  respond w (length (sent st)) (token_request st) = Return r ->
  truthy (field r "access_token") = true ->
  stringifies (field r "access_token") = true ->
  refreshAccessToken w st
  = (Return true,
     {| token := field r "access_token";
        refreshToken := if truthy (field r "refresh_token")
                        then field r "refresh_token" else refreshToken st;
        authorization := Some (Bearer (field r "access_token"));
        sent := sent st ++ [token_request st];
        refreshCalls := S (refreshCalls st) |}).
Proof.
  intros H Hr Hf Hs. unfold refreshAccessToken, bind, try_catch, enter_refresh, this, ret,
    await_request, eval. cbn. rewrite H. cbn.
  unfold token_request in Hr. rewrite Hr.
  unfold field in *. destruct (prop (data r) "access_token") as [x|e] eqn:Hp; [|done].
  rewrite Hf. cbn.
  destruct (prop_readable _ _ "refresh_token" _ Hp) as [y ->].
  unfold bearer. rewrite Hs.
  destruct (truthy y); done.
Qed.

(** The header cannot be built: the tokens are already assigned when the
    template literal throws, and the catch block returns false. *)
Lemma refresh_header_fails st r :
  truthy (refreshToken st) = true ->
  respond w (length (sent st)) (token_request st) = Return r ->
  truthy (field r "access_token") = true ->
  stringifies (field r "access_token") = false ->
  refreshAccessToken w st
  = (Return false,
     {| token := field r "access_token";
        refreshToken := if truthy (field r "refresh_token")
                        then field r "refresh_token" else refreshToken st;
        authorization := authorization st;
        sent := sent st ++ [token_request st];
        refreshCalls := S (refreshCalls st) |}).
Proof.
  intros H Hr Hf Hs. unfold refreshAccessToken, bind, try_catch, enter_refresh, this, ret,
    await_request, eval. cbn. rewrite H. cbn.
  unfold token_request in Hr. rewrite Hr.
  unfold field in *. destruct (prop (data r) "access_token") as [x|e] eqn:Hp; [|done].
  rewrite Hf. cbn.
  destruct (prop_readable _ _ "refresh_token" _ Hp) as [y ->].
  unfold bearer. rewrite Hs.
  destruct (truthy y); done.
Qed.

(** [refreshAccessToken] always settles with a boolean, counts one call and
    sends at most the token request. *)
Lemma refresh_settles st :
  ∃ b st', refreshAccessToken w st = (Return b, st')
    ∧ refreshCalls st' = S (refreshCalls st)
    ∧ (truthy (refreshToken st) = false -> session st' = session st)
    ∧ (b = true -> sent st' = sent st ++ [token_request st])
    ∧ (sent st' = sent st ∨ sent st' = sent st ++ [token_request st]).
Proof.
  destruct (truthy (refreshToken st)) eqn:Ht.
  - destruct (respond w (length (sent st)) (token_request st)) as [r|error] eqn:Hr.
    + destruct (truthy (field r "access_token")) eqn:Hf.
      * destruct (stringifies (field r "access_token")) eqn:Hs.
        -- eexists _, _. split; [by apply (refresh_granted st r)|]. cbn. naive_solver.
        -- eexists _, _. split; [by apply (refresh_header_fails st r)|]. cbn.
           naive_solver.
      * eexists _, _. split; [by apply (refresh_not_granted st r)|]. cbn. naive_solver.
    + eexists _, _. split; [by apply (refresh_rejected st error)|]. cbn. naive_solver.
  - eexists _, _. split; [by apply refresh_without_token|]. cbn. naive_solver.
Qed.

(** C3, as amended: [refreshAccessToken] never throws.  It returns false,
    leaving the session as it was, when no refresh token is stored (no
    request is sent then), when the token exchange fails and when the answer
    carries no access token.  When the answer carries an access token from
    which the Authorization header can be built, it returns true and has
    installed the access token and the header in one step; the refresh token
    is replaced only when the answer carries one, and is kept otherwise.
    (When the header cannot be built the tokens are assigned all the same
    and the call returns false.) *)
Theorem refreshAccessToken_outcome st :
  ∃ b st', refreshAccessToken w st = (Return b, st')
    ∧ (truthy (refreshToken st) = false ->
         b = false ∧ session st' = session st ∧ sent st' = sent st)
    ∧ (∀ error, truthy (refreshToken st) = true ->
         respond w (length (sent st)) (token_request st) = Throw error ->
         b = false ∧ session st' = session st)
    ∧ (∀ r, truthy (refreshToken st) = true ->
         respond w (length (sent st)) (token_request st) = Return r ->
         truthy (field r "access_token") = false ->
         b = false ∧ session st' = session st)
    ∧ (∀ r, truthy (refreshToken st) = true ->
         respond w (length (sent st)) (token_request st) = Return r ->
         truthy (field r "access_token") = true ->
         stringifies (field r "access_token") = true ->
         b = true
         ∧ token st' = field r "access_token"
         ∧ refreshToken st' = (if truthy (field r "refresh_token")
                               then field r "refresh_token" else refreshToken st)
         ∧ authorization st' = Some (Bearer (field r "access_token"))
         ∧ sent st' = sent st ++ [token_request st])
    ∧ (∀ r, truthy (refreshToken st) = true ->
         respond w (length (sent st)) (token_request st) = Return r ->
         truthy (field r "access_token") = true ->
         stringifies (field r "access_token") = false ->
         b = false
         ∧ token st' = field r "access_token"
         ∧ refreshToken st' = (if truthy (field r "refresh_token")
                               then field r "refresh_token" else refreshToken st)
         ∧ authorization st' = authorization st).
Proof.
  destruct (refresh_settles st) as (b & st' & Heq & _).
  exists b, st'. split; [exact Heq|]. split; [|split; [|split; [|split]]].
  - intros Hno. rewrite refresh_without_token in Heq by done. by simplify_eq.
  - intros error Ht Hr. rewrite (refresh_rejected st error) in Heq by done.
    by simplify_eq.
  - intros r Ht Hr Hf. rewrite (refresh_not_granted st r) in Heq by done.
    by simplify_eq.
  - intros r Ht Hr Hf Hs. rewrite (refresh_granted st r) in Heq by done.
    by simplify_eq.
  - intros r Ht Hr Hf Hs. rewrite (refresh_header_fails st r) in Heq by done.
    by simplify_eq.
Qed.

(** [login] step by step. *)
Lemma login_init_fails email password st error :
  respond w (length (sent st)) (AccountGet LOGIN_INITIALIZE_URL) = Throw error ->
  login w email password st
  = (Return false, after_sending st [AccountGet LOGIN_INITIALIZE_URL]).
Proof.
  intros H. unfold login, try_catch, bind, await_request, ret. cbn. by rewrite H.
Qed.

Lemma login_encrypt_fails email password st init error :
  respond w (length (sent st)) (AccountGet LOGIN_INITIALIZE_URL) = Return init ->
  rsa_oaep w password = Throw error ->
  login w email password st
  = (Return false, after_sending st [AccountGet LOGIN_INITIALIZE_URL]).
Proof.
  intros H He. unfold login, try_catch, bind, await_request, ret, eval. cbn.
  by rewrite H, He.
Qed.

Lemma login_rejected email password st init encrypted error :
  respond w (length (sent st)) (AccountGet LOGIN_INITIALIZE_URL) = Return init ->
  rsa_oaep w password = Return encrypted ->
  respond w (S (length (sent st))) (login_request email encrypted) = Throw error ->
  login w email password st
  = (Return false,
     after_sending st [AccountGet LOGIN_INITIALIZE_URL; login_request email encrypted]).
Proof.
  intros H He Hr. unfold login, try_catch, bind, await_request, ret, eval. cbn.
  rewrite H, He. cbn. rewrite length_sent_snoc.
  unfold login_request in Hr. rewrite Hr. unfold after_sending. cbn.
  by rewrite <- app_assoc.
Qed.

Lemma login_not_granted email password st init encrypted r :
  respond w (length (sent st)) (AccountGet LOGIN_INITIALIZE_URL) = Return init ->
  rsa_oaep w password = Return encrypted ->
  respond w (S (length (sent st))) (login_request email encrypted) = Return r ->
  truthy (field r "access_token") = false ->
  login w email password st
  = (Return false,
     after_sending st [AccountGet LOGIN_INITIALIZE_URL; login_request email encrypted]).
Proof.
  intros H He Hr Hf. unfold login, try_catch, bind, await_request, ret, eval. cbn.
  rewrite H, He. cbn. rewrite length_sent_snoc.
  unfold login_request in Hr. rewrite Hr. unfold after_sending. cbn.
  rewrite <- app_assoc. cbn.
  unfold field in Hf. destruct (prop (data r) "access_token") as [x|e]; [|done].
  by rewrite Hf.
Qed.

Lemma login_granted email password st init encrypted r :
  respond w (length (sent st)) (AccountGet LOGIN_INITIALIZE_URL) = Return init ->
  rsa_oaep w password = Return encrypted ->
  respond w (S (length (sent st))) (login_request email encrypted) = Return r ->
  truthy (field r "access_token") = true ->
  stringifies (field r "access_token") = true ->
  login w email password st
  = (Return true,
     {| token := field r "access_token";
        refreshToken := field r "refresh_token";
        authorization := Some (Bearer (field r "access_token"));
        sent := sent st ++ [AccountGet LOGIN_INITIALIZE_URL; login_request email encrypted];
        refreshCalls := refreshCalls st |}).
Proof.
  intros H He Hr Hf Hs. unfold login, try_catch, bind, await_request, ret, eval. cbn.
  rewrite H, He. cbn. rewrite length_sent_snoc.
  unfold login_request in Hr. rewrite Hr. cbn.
  rewrite <- app_assoc. cbn.
  unfold field in *. destruct (prop (data r) "access_token") as [x|e] eqn:Hp; [|done].
  rewrite Hf. cbn.
  destruct (prop_readable _ _ "refresh_token" _ Hp) as [y ->].
  unfold bearer. by rewrite Hs.
Qed.

(** The header cannot be built: both tokens are already assigned when the
    template literal throws, and the catch block returns false. *)
Lemma login_header_fails email password st init encrypted r :
  respond w (length (sent st)) (AccountGet LOGIN_INITIALIZE_URL) = Return init ->
  rsa_oaep w password = Return encrypted ->
  respond w (S (length (sent st))) (login_request email encrypted) = Return r ->
  truthy (field r "access_token") = true ->
  stringifies (field r "access_token") = false ->
  login w email password st
  = (Return false,
     {| token := field r "access_token";
        refreshToken := field r "refresh_token";
        authorization := authorization st;
        sent := sent st ++ [AccountGet LOGIN_INITIALIZE_URL; login_request email encrypted];
        refreshCalls := refreshCalls st |}).
Proof.
  intros H He Hr Hf Hs. unfold login, try_catch, bind, await_request, ret, eval. cbn.
  rewrite H, He. cbn. rewrite length_sent_snoc.
  unfold login_request in Hr. rewrite Hr. cbn.
  rewrite <- app_assoc. cbn.
  unfold field in *. destruct (prop (data r) "access_token") as [x|e] eqn:Hp; [|done].
  rewrite Hf. cbn.
  destruct (prop_readable _ _ "refresh_token" _ Hp) as [y ->].
  unfold bearer. by rewrite Hs.
Qed.

(** The outcomes of [login], by cases. *)
Lemma login_cases email password st :
  (login w email password st
     = (Return false, after_sending st [AccountGet LOGIN_INITIALIZE_URL]))
  ∨ (∃ encrypted,
       rsa_oaep w password = Return encrypted
       ∧ login w email password st
         = (Return false,
            after_sending st [AccountGet LOGIN_INITIALIZE_URL;
                              login_request email encrypted]))
  ∨ (∃ encrypted r,
       rsa_oaep w password = Return encrypted
       ∧ respond w (S (length (sent st))) (login_request email encrypted) = Return r
       ∧ truthy (field r "access_token") = true
       ∧ stringifies (field r "access_token") = true
       ∧ login w email password st
         = (Return true,
            {| token := field r "access_token";
               refreshToken := field r "refresh_token";
               authorization := Some (Bearer (field r "access_token"));
               sent := sent st ++ [AccountGet LOGIN_INITIALIZE_URL;
                                   login_request email encrypted];
               refreshCalls := refreshCalls st |}))
  ∨ (∃ encrypted r,
       rsa_oaep w password = Return encrypted
       ∧ respond w (S (length (sent st))) (login_request email encrypted) = Return r
       ∧ truthy (field r "access_token") = true
       ∧ stringifies (field r "access_token") = false
       ∧ login w email password st
         = (Return false,
            {| token := field r "access_token";
               refreshToken := field r "refresh_token";
               authorization := authorization st;
               sent := sent st ++ [AccountGet LOGIN_INITIALIZE_URL;
                                   login_request email encrypted];
               refreshCalls := refreshCalls st |})).
Proof.
  destruct (respond w (length (sent st)) (AccountGet LOGIN_INITIALIZE_URL))
    as [init|e0] eqn:H0; [|left; by eapply login_init_fails].
  destruct (rsa_oaep w password) as [encrypted|e1] eqn:H1;
    [|left; by eapply login_encrypt_fails].
  destruct (respond w (S (length (sent st))) (login_request email encrypted))
    as [r|e2] eqn:H2;
    [|right; left; exists encrypted; split; [done|by eapply login_rejected]].
  destruct (truthy (field r "access_token")) eqn:Hf.
  - destruct (stringifies (field r "access_token")) eqn:Hs.
    + right; right; left. exists encrypted, r. repeat split; try done.
      by eapply login_granted.
    + right; right; right. exists encrypted, r. repeat split; try done.
      by eapply login_header_fails.
  - right; left. exists encrypted. split; [done|]. by eapply login_not_granted.
Qed.

(** [login] never throws.  It returns true exactly when every step
    succeeded and the platform answered with an access token from which the
    header could be built.  When it returns false the session is as it was,
    except after an answer whose access token has no string: then both
    tokens of the answer are installed and only the header is left. *)
Lemma login_outcome email password st :
  ∃ b st', login w email password st = (Return b, st')
    ∧ (b = true <->
         ∃ init encrypted r,
           respond w (length (sent st)) (AccountGet LOGIN_INITIALIZE_URL) = Return init
           ∧ rsa_oaep w password = Return encrypted
           ∧ respond w (S (length (sent st))) (login_request email encrypted) = Return r
           ∧ truthy (field r "access_token") = true
           ∧ stringifies (field r "access_token") = true
           ∧ token st' = field r "access_token")
    ∧ (b = false ->
         session st' = session st
         ∨ ∃ encrypted r,
             rsa_oaep w password = Return encrypted
             ∧ respond w (S (length (sent st))) (login_request email encrypted) = Return r
             ∧ truthy (field r "access_token") = true
             ∧ stringifies (field r "access_token") = false
             ∧ token st' = field r "access_token"
             ∧ refreshToken st' = field r "refresh_token"
             ∧ authorization st' = authorization st)
    ∧ ((∀ encrypted, ∃ error,
          respond w (S (length (sent st))) (login_request email encrypted) = Throw error) ->
       b = false ∧ session st' = session st).
Proof.
  destruct (respond w (length (sent st)) (AccountGet LOGIN_INITIALIZE_URL))
    as [init|e0] eqn:H0.
  2:{ eexists _, _. split; [by eapply login_init_fails|]. cbn.
      split; [|split; [by left|done]]. split; [done|]. by intros (? & ? & ? & ? & _). }
  destruct (rsa_oaep w password) as [encrypted|e1] eqn:H1.
  2:{ eexists _, _. split; [by eapply login_encrypt_fails|]. cbn.
      split; [|split; [by left|done]]. split; [done|]. by intros (? & ? & ? & _ & ? & _). }
  destruct (respond w (S (length (sent st))) (login_request email encrypted))
    as [r|e2] eqn:H2.
  2:{ eexists _, _. split; [by eapply login_rejected|]. cbn.
      split; [|split; [by left|done]]. split; [done|].
      intros (? & ? & ? & _ & ? & ? & _). congruence. }
  destruct (truthy (field r "access_token")) eqn:Hf.
  - destruct (stringifies (field r "access_token")) eqn:Hs.
    + eexists _, _. split; [by eapply login_granted|]. cbn.
      split; [|split; [done|]].
      * split; [|done]. intros _. by exists init, encrypted, r.
      * intros Hrej. destruct (Hrej encrypted) as [error He]. congruence.
    + eexists _, _. split; [by eapply login_header_fails|]. cbn.
      split; [|split].
      * split; [done|]. intros (? & ? & ? & _ & ? & ? & _ & ? & _). congruence.
      * intros _. right. by exists encrypted, r.
      * intros Hrej. destruct (Hrej encrypted) as [error He]. congruence.
  - eexists _, _. split; [by eapply login_not_granted|]. cbn.
    split; [|split; [by left|]].
    + split; [done|]. intros (? & ? & ? & _ & ? & ? & ? & _). congruence.
    + intros Hrej. destruct (Hrej encrypted) as [error He]. congruence.
Qed.

End SessionProperties.

(** C4: the session does not always stay as it was when [login] returns
    false.  The platform accepts the credentials and answers with an access
    token that has no string (a JSON object with a property [toString]):
    [this.token] and [this.refreshToken] are assigned, the template literal
    of the Authorization header throws, the catch block returns false, and
    the client holds the tokens of the failed login. *)
Theorem login_failure_changes_session :
  let res := login unconvertible_token_platform "fan@example.com" "secret-password"
               (create None) in
  respond unconvertible_token_platform 1 (login_request "fan@example.com" "b64-ciphertext")
  = Return unconvertible_token_answer
  ∧ res.1 = Return false
  ∧ token res.2 = JObj [("toString", JNum 1)]
  ∧ refreshToken res.2 = JStr "R9"
  ∧ authorization res.2 = None
  ∧ session res.2 ≠ session (create None).
Proof. cbn zeta. repeat split; try reflexivity. by vm_compute. Qed.

(** On a platform that rejects the credentials with 401, [login] returns
    false and the session stays unset. *)
Example login_rejected_credentials :
  let res := login (failing_platform unauthorized) "fan@example.com" "secret-password"
               (create None) in
  res.1 = Return false ∧ session res.2 = (JNull, JNull, None).
Proof. by vm_compute. Qed.

(** For a logged-in client on a platform that grants the exchange, both
    tokens are replaced by the returned pair. *)
Lemma refreshAccessToken_outcome_witness :
  ∃ st', refreshAccessToken rejecting_platform logged_in = (Return true, st')
    ∧ token st' = JStr "A1" ∧ refreshToken st' = JStr "R1"
    ∧ authorization st' = Some (Bearer (JStr "A1")).
Proof.
  destruct (refreshAccessToken_outcome rejecting_platform logged_in)
    as (b & st' & Heq & _ & _ & _ & Hgranted & _).
  destruct (Hgranted (token_pair "A1" "R1") eq_refl eq_refl eq_refl eq_refl)
    as (-> & Ht & Hr & Ha & _).
  exists st'. repeat split; [exact Heq | exact Ht | exact Hr | exact Ha].
Defined.

(** When the exchange returns an access token only, the call succeeds and
    the old refresh token stays in place, so the pair that was returned (a
    new access token and no refresh token) is not what the session holds. *)
Lemma refreshAccessToken_counterexample :
  let r := {| status := 200; data := JObj [("access_token", JStr "A1")] |} in
  let res := refreshAccessToken access_only_platform logged_in in
  respond access_only_platform 0 (token_request logged_in) = Return r
  ∧ res.1 = Return true
  ∧ token res.2 = JStr "A1"
  ∧ field r "refresh_token" = JUndefined
  ∧ refreshToken res.2 = JStr "R0"
  ∧ refreshToken res.2 ≠ field r "refresh_token".
Proof. cbn zeta. repeat split; try reflexivity. by vm_compute. Qed.

(* ===================================================================== *)
(** ** Properties of the resource operations *)
(* ===================================================================== *)

Section ResourceProperties.

Variable w : upstream.

Implicit Types (st : client) (op : operation) (fuel : nat).

Lemma axiosInstance_get_sends path params st :
  axiosInstance_get w path params st
  = (respond w (length (sent st)) (ApiGet path params (authorization st)),
     after_sending st [ApiGet path params (authorization st)]).
Proof. reflexivity. Qed.

(** One invocation, by the answer to its request. *)
Lemma invoke_resolved fuel op st r :
  respond w (length (sent st)) (request_of w op st) = Return r ->
  invoke w (S fuel) op st
  = Some (Return (data r), after_sending st [request_of w op st]).
Proof.
  intros H. cbn [invoke]. rewrite axiosInstance_get_sends.
  fold (request_of w op st). by rewrite H.
Qed.


Lemma invoke_refreshed fuel op st error st2 :
  respond w (length (sent st)) (request_of w op st) = Throw error ->
  is_401 error = true ->
  refreshAccessToken w (after_sending st [request_of w op st]) = (Return true, st2) ->
  invoke w (S fuel) op st = invoke w fuel op st2.
Proof.
  intros H H401 Hr. cbn [invoke]. rewrite axiosInstance_get_sends.
  fold (request_of w op st). by rewrite H, H401, Hr.
Qed.

Lemma invoke_refresh_failed fuel op st error st2 :
  respond w (length (sent st)) (request_of w op st) = Throw error ->
  is_401 error = true ->
  refreshAccessToken w (after_sending st [request_of w op st]) = (Return false, st2) ->
  invoke w (S fuel) op st = Some (Throw (wrapped_error op error), st2).
Proof.
  intros H H401 Hr. cbn [invoke]. rewrite axiosInstance_get_sends.
  fold (request_of w op st). by rewrite H, H401, Hr.
Qed.

(** Counting requests. *)
Lemma resource_calls_app (l l' : list http_request) :
  resource_calls (l ++ l') = (resource_calls l + resource_calls l')%nat.
Proof. unfold resource_calls. by rewrite filter_app, length_app. Qed.

Lemma token_exchanges_app (l l' : list http_request) :
  token_exchanges (l ++ l') = (token_exchanges l + token_exchanges l')%nat.
Proof. unfold token_exchanges. by rewrite filter_app, length_app. Qed.

(** A successful refresh after a resource call: what was sent and counted. *)
Lemma refreshed_trace op st st2 :
  refreshAccessToken w (after_sending st [request_of w op st]) = (Return true, st2) ->
  sent st2 = sent st ++ [request_of w op st; token_request st]
  ∧ refreshCalls st2 = S (refreshCalls st).
Proof.
  intros Hr.
  destruct (refresh_settles w (after_sending st [request_of w op st]))
    as (b & st' & Heq & Hn & _ & Hsent & _).
  rewrite Hr in Heq. simplify_eq. split; [|exact Hn].
  rewrite Hsent by done. cbn. by rewrite <- app_assoc.
Qed.

(** After [n] attempts answered 401 and refreshed, the operation is at its
    next invocation. *)
Lemma invoke_retried op n st st' :
  retried w op n st st' ->
  ∀ fuel, invoke w (n + fuel) op st = invoke w fuel op st'.
Proof.
  induction 1 as [st|n st error st2 st3 H H401 Hr _ IH]; intros fuel; [done|].
  cbn [Nat.add]. rewrite (invoke_refreshed _ op st error st2) by done. apply IH.
Qed.

Lemma retried_counts op n st st' :
  retried w op n st st' ->
  resource_calls (sent st') = (resource_calls (sent st) + n)%nat
  ∧ token_exchanges (sent st') = (token_exchanges (sent st) + n)%nat
  ∧ refreshCalls st' = (refreshCalls st + n)%nat.
Proof.
  induction 1 as [st|n st error st2 st3 H H401 Hr _ (IH1 & IH2 & IH3)].
  - repeat split; lia.
  - destruct (refreshed_trace op st st2 Hr) as [Hs Hn].
    rewrite IH1, IH2, IH3, Hs, Hn, resource_calls_app, token_exchanges_app.
    change (resource_calls [request_of w op st; token_request st]) with 1%nat.
    change (token_exchanges [request_of w op st; token_request st]) with 1%nat.
    repeat split; lia.
Qed.

(** While the platform keeps answering 401 and the refreshes keep
    succeeding, the operation never settles. *)
Lemma invoke_never_settles op st :
  (∀ n, ∃ st', retried w op n st st') ->
  ∀ fuel, invoke w fuel op st = None.
Proof.
  intros Hall fuel. destruct (Hall fuel) as [st' Hr].
  rewrite <- (Nat.add_0_r fuel). by rewrite (invoke_retried op fuel st st' Hr).
Qed.

(** The number of retries has no bound: after [n] attempts in a row that
    were answered 401 and refreshed, exactly [n] resource calls and [n]
    refresh calls have been made, the operation has not settled, and it goes
    on with attempt [n + 1]. *)
Lemma retried_chain op n st st' :
  retried w op n st st' ->
  (∀ fuel, invoke w (n + fuel) op st = invoke w fuel op st')
  ∧ (∀ fuel, (fuel <= n)%nat -> invoke w fuel op st = None)
  ∧ resource_calls (sent st') = (resource_calls (sent st) + n)%nat
  ∧ token_exchanges (sent st') = (token_exchanges (sent st) + n)%nat
  ∧ refreshCalls st' = (refreshCalls st + n)%nat.
Proof.
  intros Hr. split; [by apply invoke_retried|].
  split; [|by apply (retried_counts op)].
  revert st st' Hr.
  induction n as [|n IH]; intros st st' Hr fuel Hle.
  - by replace fuel with 0%nat by lia.
  - destruct fuel as [|fuel]; [done|].
    inversion Hr as [|? ? error st2 ? H H401 Href Hrest]; subst.
    rewrite (invoke_refreshed _ op st error st2) by done.
    apply (IH st2 st' Hrest). lia.
Qed.

(** C1, as amended: when the first attempt and the retry are both answered
    401 and the refresh in between succeeds, [refreshAccessToken] is called a
    second time after the two resource calls.  If that refresh fails, the
    operation throws the second 401 error, wrapped in its context; if it
    succeeds, the operation calls itself once more, so that a third resource
    call follows, and so on for as long as the platform answers 401 and the
    refreshes succeed: in that case the operation never settles. *)
Theorem second_401_refreshes_again op st error st2 error2 :
  respond w (length (sent st)) (request_of w op st) = Throw error ->
  is_401 error = true ->
  refreshAccessToken w (after_sending st [request_of w op st]) = (Return true, st2) ->
  respond w (length (sent st2)) (request_of w op st2) = Throw error2 ->
  is_401 error2 = true ->
  ∃ b st3,
    refreshAccessToken w (after_sending st2 [request_of w op st2]) = (Return b, st3)
    ∧ refreshCalls st3 = (refreshCalls st + 2)%nat
    ∧ resource_calls (sent (after_sending st2 [request_of w op st2]))
      = (resource_calls (sent st) + 2)%nat
    ∧ (b = false ->
       ∀ fuel, invoke w (S (S fuel)) op st = Some (Throw (wrapped_error op error2), st3))
    ∧ (b = true ->
       ∀ fuel, invoke w (S (S fuel)) op st = invoke w fuel op st3)
    ∧ ((∀ n, ∃ st', retried w op n st st') -> ∀ fuel, invoke w fuel op st = None).
Proof.
  intros H H401 Hr H2 H401'.
  destruct (refreshed_trace op st st2 Hr) as [Hs Hn].
  destruct (refresh_settles w (after_sending st2 [request_of w op st2]))
    as (b & st3 & Heq & Hn3 & _).
  exists b, st3. split; [exact Heq|]. split; [cbn in Hn3; lia|]. split.
  { unfold after_sending. cbn [sent]. rewrite Hs, <- app_assoc, resource_calls_app.
    change (resource_calls ([request_of w op st; token_request st] ++ [request_of w op st2]))
      with 2%nat. done. }
  split; [|split].
  - intros -> fuel. rewrite (invoke_refreshed _ op st error st2) by done.
    by apply invoke_refresh_failed.
  - intros -> fuel. rewrite (invoke_refreshed _ op st error st2) by done.
    by apply (invoke_refreshed _ op st2 error2).
  - apply invoke_never_settles.
Qed.

(** C2: an attempt answered 401, a successful refresh and a second attempt
    answered 200 make the operation return the payload of the second answer
    after exactly two resource calls and one refresh call. *)
Theorem retry_once_then_success op st error st2 payload :
  respond w (length (sent st)) (request_of w op st) = Throw error ->
  is_401 error = true ->
  refreshAccessToken w (after_sending st [request_of w op st]) = (Return true, st2) ->
  respond w (length (sent st2)) (request_of w op st2)
    = Return {| status := 200; data := payload |} ->
  ∀ fuel, ∃ st',
    invoke w (S (S fuel)) op st = Some (Return payload, st')
    ∧ sent st' = sent st ++ [request_of w op st; token_request st; request_of w op st2]
    ∧ resource_calls (sent st') = (resource_calls (sent st) + 2)%nat
    ∧ token_exchanges (sent st') = (token_exchanges (sent st) + 1)%nat
    ∧ refreshCalls st' = S (refreshCalls st).
Proof.
  intros H H401 Hr H2 fuel.
  destruct (refreshed_trace op st st2 Hr) as [Hs Hn].
  exists (after_sending st2 [request_of w op st2]).
  split.
  { rewrite (invoke_refreshed _ op st error st2) by done.
    by rewrite (invoke_resolved _ op st2 _ H2). }
  unfold after_sending. cbn [sent refreshCalls]. rewrite Hs, <- app_assoc.
  split; [done|].
  rewrite resource_calls_app, token_exchanges_app.
  change (resource_calls ([request_of w op st; token_request st] ++ [request_of w op st2]))
    with 2%nat.
  change (token_exchanges ([request_of w op st; token_request st] ++ [request_of w op st2]))
    with 1%nat.
  done.
Qed.






End ResourceProperties.

(** The cases of the test suite. *)
Example getCommunities_network_error :
  fst <$> getCommunities (failing_platform (Error "Network Error")) 1 logged_in
  = Some (Throw (Error "Failed to get communities: Network Error")).
Proof. by vm_compute. Qed.

Example getPosts_custom_pagination :
  sent ∘ snd <$> getPosts (expiring_platform 0 (JObj [("data", JArr [])])) 1 "12345"
                   (Some (JNum 2)) (Some (JNum 50)) None logged_in
  = Some [ApiGet "/v1/community/12345/posts"
            [("page", JNum 2); ("size", JNum 50); ("sort", JStr "RECENT")]
            (Some (Bearer (JStr "A0")))].
Proof. by vm_compute. Qed.

Example getComments_defaults :
  sent ∘ snd <$> getComments (expiring_platform 0 (JObj [("data", JArr [])])) 1 "post-123"
                   None None logged_in
  = Some [ApiGet "/v1/post/post-123/comments"
            [("page", JNum 1); ("size", JNum 20); ("sort", JStr "RECENT")]
            (Some (Bearer (JStr "A0")))].
Proof. by vm_compute. Qed.

(** On a platform that answers every 401 again and grants every exchange,
    any number of retries takes place. *)
Lemma rejecting_platform_retries op n :
  ∀ st, truthy (refreshToken st) = true -> ∃ st', retried rejecting_platform op n st st'.
Proof.
  induction n as [|n IH]; intros st Ht; [exists st; constructor|].
  pose proof (refresh_granted rejecting_platform
                (after_sending st [request_of rejecting_platform op st])
                (token_pair "A1" "R1") Ht eq_refl eq_refl eq_refl)
    as Hr.
  destruct (IH _ (eq_refl : truthy (refreshToken
     {| token := field (token_pair "A1" "R1") "access_token";
        refreshToken := JStr "R1";
        authorization := Some (Bearer (field (token_pair "A1" "R1") "access_token"));
        sent := sent (after_sending st [request_of rejecting_platform op st])
                  ++ [token_request (after_sending st [request_of rejecting_platform op st])];
        refreshCalls := S (refreshCalls (after_sending st
                                           [request_of rejecting_platform op st])) |})
     = true))
    as [st' Hrest].
  exists st'. by eapply (retried_S _ _ _ _ unauthorized).
Qed.

Lemma second_401_refreshes_again_witness :
  ∃ st3,
    getCommunities (expiring_platform 3 communities_payload) 3 logged_in
    = getCommunities (expiring_platform 3 communities_payload) 1 st3
    ∧ refreshCalls st3 = 2%nat.
Proof.
  destruct (second_401_refreshes_again (expiring_platform 3 communities_payload)
              GetCommunities logged_in unauthorized
              (refreshed_once (expiring_platform 3 communities_payload) GetCommunities)
              unauthorized)
    as (b & st3 & Heq & Hn & _ & _ & Hagain & _);
    [reflexivity | reflexivity | reflexivity | reflexivity | reflexivity |].
  exists st3. split; [|exact Hn].
  apply Hagain. vm_compute in Heq. congruence.
Defined.

(** The retry is not bounded by one.  With 401 on the first attempt and on
    the retry and with successful refreshes, the operation makes a third
    resource call after a second refresh and returns its payload instead of
    the second 401 error; and when every attempt is answered 401 it never
    settles. *)
Lemma retry_bound_counterexample :
  let w := expiring_platform 3 communities_payload in
  let first := request_of w GetCommunities logged_in in
  let st2 := refreshed_once w GetCommunities in
  let run := getCommunities w 3 logged_in in
  respond w 0 first = Throw unauthorized
  ∧ refreshAccessToken w (after_sending logged_in [first]) = (Return true, st2)
  ∧ respond w (length (sent st2)) (request_of w GetCommunities st2) = Throw unauthorized
  ∧ fst <$> run = Some (Return communities_payload)
  ∧ resource_calls ∘ sent ∘ snd <$> run = Some 3%nat
  ∧ token_exchanges ∘ sent ∘ snd <$> run = Some 2%nat
  ∧ refreshCalls ∘ snd <$> run = Some 2%nat
  ∧ (∀ fuel, getCommunities rejecting_platform fuel logged_in = None).
Proof.
  cbn zeta. repeat split; try (vm_compute; reflexivity).
  apply invoke_never_settles. intros n.
  by apply rejecting_platform_retries.
Qed.

Lemma retry_once_then_success_witness :
  ∃ st',
    getCommunities (expiring_platform 1 communities_payload) 2 logged_in
    = Some (Return communities_payload, st')
    ∧ resource_calls (sent st') = 2%nat
    ∧ token_exchanges (sent st') = 1%nat
    ∧ refreshCalls st' = 1%nat.
Proof.
  destruct (retry_once_then_success (expiring_platform 1 communities_payload)
              GetCommunities logged_in unauthorized
              (refreshed_once (expiring_platform 1 communities_payload) GetCommunities)
              communities_payload eq_refl eq_refl eq_refl eq_refl 0%nat)
    as (st' & Heq & _ & Hcalls & Hex & Hn).
  exists st'. split; [exact Heq|]. split; [exact Hcalls|]. split; [exact Hex|exact Hn].
Defined.




(* ===================================================================== *)
(** ** Properties of the cache middleware *)
(* ===================================================================== *)

Section MiddlewareProperties.

Import Server.

Implicit Types (x : exchange) (next : list res_call) (key : string).

Lemma deliver_keeps_hook b r : json_hook (deliver b r) = json_hook r.
Proof. unfold deliver. by destruct (body r). Qed.

Lemma deliver_keeps_status b r : statusCode (deliver b r) = statusCode r.
Proof. unfold deliver. by destruct (body r). Qed.

Lemma call_keeps_hook c x : json_hook (res (call c x)) = json_hook (res x).
Proof.
  destruct c; cbn; try done.
  - unfold res_json. destruct (json_hook (res x)) eqn:Hh; cbn;
      by rewrite deliver_keeps_hook.
  - by rewrite deliver_keeps_hook.
Qed.

(** Behind the wrapper, the store receives one [Cache.set] per [res.json]
    call made while the status code is 200, and nothing else. *)
Lemma run_writes key next :
  ∀ x, json_hook (res x) = Some key ->
  cache (run next x)
  = written key (json_calls_at_200 (statusCode (res x)) (clock x) next) (cache x).
Proof.
  induction next as [|c next IH]; intros x Hh; [done|].
  cbn [run]. rewrite IH by (by rewrite call_keeps_hook).
  destruct c; cbn [json_calls_at_200 call res cache clock statusCode]; try done.
  - unfold res_json. rewrite Hh. cbn [res cache clock].
    rewrite deliver_keeps_status.
    destruct (statusCode (res x) =? 200); done.
  - by rewrite deliver_keeps_status.
Qed.

(** With the original [res.json] nothing is written. *)
Lemma run_unhooked next :
  ∀ x, json_hook (res x) = None -> cache (run next x) = cache x.
Proof.
  induction next as [|c next IH]; intros x Hh; [done|].
  cbn [run]. rewrite IH by (by rewrite call_keeps_hook).
  destruct c; cbn; try done. unfold res_json. by rewrite Hh.
Qed.

(** What the middleware does to the store.  On a cache hit it answers with
    the cached data and writes nothing.  On a miss the store receives
    exactly one [Cache.set] under the request's key for each [res.json] call
    that the handler makes while the status code is 200, at the time of that
    call and before the response is sent; a string sent with [res.send], a
    [res.json] under another status code and a handler that does not answer
    leave the store as the lookup left it. *)
Lemma cacheMiddleware_writes namespace req next c now :
  let key := request_key namespace req in
  let lookup := Cache.get now key c in
  let after := cacheMiddleware namespace req next (incoming c now) in
  (truthy lookup.1 = true ->
     cache after = lookup.2
     ∧ body (res after) = Some (JsonBody lookup.1)
     ∧ statusCode (res after) = 200)
  ∧ (truthy lookup.1 = false ->
     cache after = written key (json_calls_at_200 200 now next) lookup.2)
  ∧ (truthy lookup.1 = false -> json_calls_at_200 200 now next = [] ->
     cache after = lookup.2).
Proof.
  cbn zeta. unfold cacheMiddleware, incoming. cbn [res cache clock].
  destruct (Cache.get now (request_key namespace req) c) as [cachedData cache1] eqn:Hg.
  cbn [fst snd]. split; [|split].
  - intros Hhit. by rewrite Hhit.
  - intros Hmiss. rewrite Hmiss.
    by rewrite (run_writes (request_key namespace req)).
  - intros Hmiss Hnone. rewrite Hmiss.
    rewrite (run_writes (request_key namespace req)) by done.
    cbn [res statusCode new_response clock]. by rewrite Hnone.
Qed.

End MiddlewareProperties.

Example cacheMiddleware_posts_written :
  let key := Server.request_key "posts" {| Server.originalUrl := Some "/api/communities/7/posts";
                                            Server.url := "/communities/7/posts" |} in
  Server.cache
    (Server.cacheMiddleware "posts"
       {| Server.originalUrl := Some "/api/communities/7/posts";
          Server.url := "/communities/7/posts" |}
       [Server.Wait 40; Server.Json (JObj [("data", JArr [])])]
       (incoming Cache.instance 1000))
  = Server.written key [(1040, JObj [("data", JArr [])])]
      (Cache.get 1000 key Cache.instance).2.
Proof.
  cbn zeta.
  destruct (cacheMiddleware_writes "posts"
              {| Server.originalUrl := Some "/api/communities/7/posts";
                 Server.url := "/communities/7/posts" |}
              [Server.Wait 40; Server.Json (JObj [("data", JArr [])])]
              Cache.instance 1000) as (_ & Hmiss & _).
  apply Hmiss. reflexivity.
Defined.

(** C9: the RSS route is registered behind [cacheMiddleware('rss')], and
    its handler answers with [res.send(feed.xml())].  The middleware wraps
    [res.json] only, so the response completes with status code 200 and no
    entry is written for the request's key: the next request for the same
    feed misses again, where the sibling JSON routes are served from the
    cache. *)
Theorem rss_response_not_cached :
  let req := {| Server.originalUrl := Some "/api/communities/7/rss";
                Server.url := "/communities/7/rss" |} in
  let after := Server.cacheMiddleware "rss" req rss_handler (incoming Cache.instance 1000) in
  let sibling := Server.cacheMiddleware "posts" req
                   [Server.Wait 40; Server.Json (JObj [("data", JArr [])])]
                   (incoming Cache.instance 1000) in
  Server.statusCode (Server.res after) = 200
  ∧ Server.body (Server.res after) = Some (Server.TextBody "<rss version='2.0'/>")
  ∧ NodeCache.entries (Server.cache after) !! Server.request_key "rss" req = None
  ∧ (Cache.get 1400 (Server.request_key "rss" req) (Server.cache after)).1 = JNull
  ∧ (Cache.get 1400 (Server.request_key "posts" req) (Server.cache sibling)).1
    = JObj [("data", JArr [])].
Proof. cbn zeta. repeat split; by vm_compute. Qed.

(** A handler that answers an error through [res.status(500).json] writes
    nothing either. *)
Example cacheMiddleware_error_not_cached :
  let req := {| Server.originalUrl := Some "/api/posts/9"; Server.url := "/posts/9" |} in
  let after := Server.cacheMiddleware "post" req
                 [Server.Wait 90; Server.Status 500;
                  Server.Json (JObj [("error", JStr "Failed to get post: Network Error")])]
                 (incoming Cache.instance 1000) in
  NodeCache.entries (Server.cache after) !! Server.request_key "post" req = None.
Proof. by vm_compute. Qed.

(* ===================================================================== *)
(** ** Further properties of the cache *)
(* ===================================================================== *)

Section CacheOperations.

Implicit Types (key : string) (value : jsval) (c : NodeCache.store) (now : Z).

(** What a read answers and what it leaves in the store. *)
Lemma node_get_value now key c :
  (NodeCache.get now key c).1
  = match NodeCache.entries c !! key with
    | Some d => if NodeCache.expired now d then JUndefined else NodeCache.v d
    | None => JUndefined
    end.
Proof.
  unfold NodeCache.get, NodeCache.check.
  destruct (NodeCache.entries c !! key) as [d|]; [|done].
  by destruct (NodeCache.expired now d).
Qed.

Lemma node_get_entries now key c :
  NodeCache.entries (NodeCache.get now key c).2
  = match NodeCache.entries c !! key with
    | Some d => if NodeCache.expired now d
                then base.delete key (NodeCache.entries c) else NodeCache.entries c
    | None => NodeCache.entries c
    end.
Proof.
  unfold NodeCache.get, NodeCache.check.
  destruct (NodeCache.entries c !! key) as [d|]; [|done].
  by destruct (NodeCache.expired now d).
Qed.

Lemma cache_get_value now key c :
  (Cache.get now key c).1
  = match NodeCache.entries c !! key with
    | Some d => if NodeCache.expired now d then JNull
                else if truthy (NodeCache.v d) then NodeCache.v d else JNull
    | None => JNull
    end.
Proof.
  rewrite cache_get_fst, node_get_value. cbn zeta.
  destruct (NodeCache.entries c !! key) as [d|]; [|done].
  by destruct (NodeCache.expired now d).
Qed.

Lemma cache_get_entries now key c :
  NodeCache.entries (Cache.get now key c).2
  = match NodeCache.entries c !! key with
    | Some d => if NodeCache.expired now d
                then base.delete key (NodeCache.entries c) else NodeCache.entries c
    | None => NodeCache.entries c
    end.
Proof. rewrite cache_get_snd. apply node_get_entries. Qed.

(** An expired entry stays expired as the clock advances. *)
Lemma expired_later now now' d :
  now <= now' -> NodeCache.expired now d = true -> NodeCache.expired now' d = true.
Proof.
  unfold NodeCache.expired. intros Hle [Hnz Hlt]%andb_true_iff.
  apply andb_true_iff. split; [done|]. apply Z.ltb_lt. apply Z.ltb_lt in Hlt. lia.
Qed.

(** X1: after [Cache.delete(key)] a read of the key answers null, and the
    answers for all other keys are what they were. *)
Theorem cache_delete_removes key now c :
  (Cache.get now key (Cache.delete key c)).1 = JNull
  ∧ ∀ key', key' ≠ key ->
      (Cache.get now key' (Cache.delete key c)).1 = (Cache.get now key' c).1.
Proof.
  split.
  - rewrite cache_get_value. unfold Cache.delete, NodeCache.del. cbn [NodeCache.entries].
    by rewrite lookup_delete_eq.
  - intros key' Hne. rewrite !cache_get_value.
    unfold Cache.delete, NodeCache.del. cbn [NodeCache.entries].
    by rewrite lookup_delete_ne.
Qed.

Lemma cache_delete_removes_witness :
  let c := (Cache.set 1000 "post:/api/posts/2" (JStr "second")
              None (Cache.set 1000 "post:/api/posts/1" (JStr "first") None Cache.instance).2).2 in
  (Cache.get 1100 "post:/api/posts/1" (Cache.delete "post:/api/posts/1" c)).1 = JNull
  ∧ (Cache.get 1100 "post:/api/posts/2" (Cache.delete "post:/api/posts/1" c)).1
    = (Cache.get 1100 "post:/api/posts/2" c).1.
Proof.
  cbn zeta.
  destruct (cache_delete_removes "post:/api/posts/1" 1100
              (Cache.set 1000 "post:/api/posts/2" (JStr "second") None
                 (Cache.set 1000 "post:/api/posts/1" (JStr "first") None Cache.instance).2).2)
    as [Hgone Hothers].
  split; [exact Hgone|]. apply Hothers. discriminate.
Defined.

(** X2: after [Cache.flush()] every read answers null, whatever was stored
    and whenever it is read, and the hit and miss counters start again. *)
Theorem cache_flush_empties c :
  (∀ key now, (Cache.get now key (Cache.flush c)).1 = JNull)
  ∧ NodeCache.hits (Cache.flush c) = 0%nat
  ∧ NodeCache.misses (Cache.flush c) = 0%nat
  ∧ NodeCache.stdTTL (Cache.flush c) = NodeCache.stdTTL c.
Proof.
  split; [|done]. intros key now. rewrite cache_get_value.
  unfold Cache.flush, NodeCache.flushAll. cbn [NodeCache.entries].
  by rewrite lookup_empty.
Qed.

(** X3: a second [Cache.set] on a key replaces the first entirely, value and
    expiry: the store is the one that the second write alone would give, so
    the entry lives for the ttl of the second write counted from the second
    write. *)
Theorem cache_set_overwrites key v1 v2 ttl1 ttl2 now1 now2 c :
  (Cache.set now2 key v2 ttl2 (Cache.set now1 key v1 ttl1 c).2).2
  = (Cache.set now2 key v2 ttl2 c).2
  ∧ ∀ later,
      (Cache.get later key (Cache.set now2 key v2 ttl2 (Cache.set now1 key v1 ttl1 c).2).2).1
      = if NodeCache.expired later (NodeCache.wrap now2 v2 (default Cache.DEFAULT_TTL ttl2))
        then JNull else if truthy v2 then v2 else JNull.
Proof.
  assert (Heq : (Cache.set now2 key v2 ttl2 (Cache.set now1 key v1 ttl1 c).2).2
                = (Cache.set now2 key v2 ttl2 c).2).
  { unfold Cache.set, NodeCache.set. cbn [snd NodeCache.entries NodeCache.stdTTL
      NodeCache.hits NodeCache.misses from_option id].
    by rewrite insert_insert_eq. }
  split; [exact Heq|]. intros later. rewrite Heq, cache_get_value.
  unfold Cache.set, NodeCache.set. cbn [snd NodeCache.entries from_option id].
  rewrite lookup_insert_eq.
  destruct (NodeCache.expired later _); [done|].
  by destruct (wrap_livetime now2 v2 (default Cache.DEFAULT_TTL ttl2)) as [_ ->].
Qed.

(** X4: [Cache.set] on one key does not change what a read of another key
    answers. *)
Theorem cache_set_other_key key key' value ttl now now' c :
  key' ≠ key ->
  (Cache.get now' key' (Cache.set now key value ttl c).2).1 = (Cache.get now' key' c).1.
Proof.
  intros Hne. rewrite !cache_get_value.
  unfold Cache.set, NodeCache.set. cbn [snd NodeCache.entries].
  by rewrite lookup_insert_ne.
Qed.

Lemma cache_set_other_key_witness :
  (Cache.get 1100 "post:/api/posts/1"
     (Cache.set 1050 "post:/api/posts/2" (JStr "second") None
        (Cache.set 1000 "post:/api/posts/1" (JStr "first") None Cache.instance).2).2).1
  = (Cache.get 1100 "post:/api/posts/1"
       (Cache.set 1000 "post:/api/posts/1" (JStr "first") None Cache.instance).2).1.
Proof.
  apply (cache_set_other_key "post:/api/posts/2" "post:/api/posts/1").
  discriminate.
Defined.

Lemma cache_get_after_get key key' now now' c :
  now <= now' ->
  (Cache.get now' key' (Cache.get now key c).2).1 = (Cache.get now' key' c).1.
Proof.
  intros Hle. rewrite (cache_get_value now' key' (Cache.get now key c).2).
  rewrite cache_get_entries, (cache_get_value now' key' c).
  destruct (NodeCache.entries c !! key) as [d|] eqn:Hd; [|done].
  destruct (NodeCache.expired now d) eqn:He; [|done].
  destruct (decide (key' = key)) as [->|Hne].
  - rewrite lookup_delete_eq, Hd. by rewrite (expired_later now now' d).
  - by rewrite lookup_delete_ne.
Qed.

(** X5: a read never changes what later reads answer.  It removes an entry
    only when the entry has expired, and an expired entry is absent for
    every later read anyway; in particular a hit does not prolong the life of
    an entry. *)
Theorem cache_read_is_harmless key key' now now' c :
  now <= now' ->
  (Cache.get now' key' (Cache.get now key c).2).1 = (Cache.get now' key' c).1.
Proof. apply cache_get_after_get. Qed.

Lemma cache_read_is_harmless_witness :
  (Cache.get 400000 "k"
     (Cache.get 200000 "k" (Cache.set 1000 "k" (JStr "x") None Cache.instance).2).2).1
  = (Cache.get 400000 "k" (Cache.set 1000 "k" (JStr "x") None Cache.instance).2).1.
Proof.
  apply (cache_read_is_harmless "k" "k" 200000 400000). lia.
Defined.

(** X6: [Cache.get] answers something other than null exactly when the store
    holds an entry for the key that has not expired and whose value is
    truthy, and then it answers that value. *)
Theorem cache_hit_iff key now c :
  (Cache.get now key c).1 ≠ JNull
  <-> ∃ d, NodeCache.entries c !! key = Some d
        ∧ NodeCache.expired now d = false
        ∧ truthy (NodeCache.v d) = true
        ∧ (Cache.get now key c).1 = NodeCache.v d.
Proof.
  rewrite cache_get_value.
  destruct (NodeCache.entries c !! key) as [d|] eqn:Hd.
  - destruct (NodeCache.expired now d) eqn:He.
    + split; [done|]. intros (d' & ? & ? & _). congruence.
    + destruct (truthy (NodeCache.v d)) eqn:Ht.
      * split; [intros _; by exists d|]. intros _ Hnull. by rewrite Hnull in Ht.
      * split; [done|]. intros (d' & ? & _ & ? & _). congruence.
  - split; [done|]. intros (d' & ? & _). congruence.
Qed.

(** Keys whose namespace has no colon determine namespace and identifier. *)
Lemma generateKey_split n1 : ∀ n2 i1 i2,
  mentions ":" n1 = false -> mentions ":" n2 = false ->
  n1 +:+ ":" +:+ i1 = n2 +:+ ":" +:+ i2 -> n1 = n2 ∧ i1 = i2.
Proof.
  induction n1 as [|a n1 IH]; intros [|b n2] i1 i2 H1 H2 Heq.
  - by simplify_eq.
  - exfalso. change (String ":" i1 = String b (n2 +:+ ":" +:+ i2)) in Heq.
    injection Heq as <- _. cbn in H2. discriminate.
  - exfalso. change (String a (n1 +:+ ":" +:+ i1) = String ":" i2) in Heq.
    injection Heq as -> _. cbn in H1. discriminate.
  - cbn in H1, H2. apply orb_false_iff in H1 as [_ H1]. apply orb_false_iff in H2 as [_ H2].
    change (String a (n1 +:+ ":" +:+ i1) = String b (n2 +:+ ":" +:+ i2)) in Heq.
    simplify_eq. by destruct (IH n2 i1 i2 H1 H2) as [-> ->].
Qed.

(** X7: for namespaces without a colon, as all the namespaces of the routes
    are, [generateKey] is injective: different namespaces or different
    request targets never share a key. *)
Theorem generateKey_injective_without_colon n1 n2 i1 i2 :
  mentions ":" n1 = false -> mentions ":" n2 = false ->
  Cache.generateKey n1 i1 = Cache.generateKey n2 i2 -> n1 = n2 ∧ i1 = i2.
Proof. unfold Cache.generateKey. apply generateKey_split. Qed.

Lemma generateKey_injective_without_colon_witness :
  "post" = "post" ∧ "/api/posts/1" = "/api/posts/1".
Proof.
  apply (generateKey_injective_without_colon "post" "post" "/api/posts/1" "/api/posts/1");
    reflexivity.
Defined.

End CacheOperations.

(* ===================================================================== *)
(** ** Further properties of the client *)
(* ===================================================================== *)

Section ClientOperations.

Variable w : upstream.

Implicit Types (st : client) (op : operation) (fuel : nat).






(** X9: an error thrown by a resource operation is always a plain [Error]
    made of the operation's context and the message of an error with which
    the platform answered one of its GET requests.  It has no [response], so
    the status of the cause is not available to the caller. *)
Theorem thrown_errors_are_wrapped fuel op :
  ∀ st e st', invoke w fuel op st = Some (Throw e, st') ->
  response e = None
  ∧ ∃ cause n auth,
      respond w n (ApiGet (path_of op) (params_of w op) auth) = Throw cause
      ∧ message e = context_of op +:+ ": " +:+ message cause.
Proof.
  induction fuel as [|fuel IH]; intros st e st' Hrun; [done|].
  cbn [invoke] in Hrun. rewrite axiosInstance_get_sends in Hrun.
  destruct (respond w (length (sent st)) _) as [r|error] eqn:Hr; [by simplify_eq|].
  assert (Hhere : Throw (A:=jsval) e = Throw (wrapped_error op error) ->
                  response e = None
                  ∧ ∃ cause n auth,
                      respond w n (ApiGet (path_of op) (params_of w op) auth) = Throw cause
                      ∧ message e = context_of op +:+ ": " +:+ message cause).
  { intros [= ->]. split; [done|]. by exists error, (length (sent st)), (authorization st). }
  destruct (is_401 error); [|apply Hhere; congruence].
  fold (request_of w op st) in Hrun.
  destruct (refresh_settles w (after_sending st [request_of w op st]))
    as (b & st2 & Heq & _).
  rewrite Heq in Hrun. destruct b; [by eapply IH|]. apply Hhere. congruence.
Qed.

(** X10: in a call that settles, every resource call after the first was
    preceded by a call of [refreshAccessToken]: with [g] resource calls and
    [k] refresh calls, [k <= g <= k + 1], at least one and at most [fuel]
    resource calls were made, at most [k] token exchanges were sent, and a
    call that returns made exactly [k + 1] resource calls. *)
Theorem calls_and_refreshes fuel op :
  ∀ st result st', invoke w fuel op st = Some (result, st') ->
  ∃ g k,
    resource_calls (sent st') = (resource_calls (sent st) + g)%nat
    ∧ refreshCalls st' = (refreshCalls st + k)%nat
    ∧ (token_exchanges (sent st') <= token_exchanges (sent st) + k)%nat
    ∧ (1 <= g <= fuel)%nat
    ∧ (k <= g <= k + 1)%nat
    ∧ (∀ payload, result = Return payload -> g = (k + 1)%nat).
Proof.
  induction fuel as [|fuel IH]; intros st result st' Hrun; [done|].
  cbn [invoke] in Hrun. rewrite axiosInstance_get_sends in Hrun.
  fold (request_of w op st) in Hrun.
  assert (Hone : resource_calls (sent (after_sending st [request_of w op st]))
                 = (resource_calls (sent st) + 1)%nat
                 ∧ token_exchanges (sent (after_sending st [request_of w op st]))
                   = token_exchanges (sent st)).
  { cbn [sent after_sending]. rewrite resource_calls_app, token_exchanges_app.
    change (resource_calls [request_of w op st]) with 1%nat.
    change (token_exchanges [request_of w op st]) with 0%nat. lia. }
  destruct Hone as [Hg Ht].
  destruct (respond w (length (sent st)) (request_of w op st)) as [r|error].
  { simplify_eq. exists 1%nat, 0%nat. rewrite Hg, Ht. cbn [refreshCalls after_sending].
    repeat split; lia. }
  destruct (is_401 error).
  2:{ simplify_eq. exists 1%nat, 0%nat. rewrite Hg, Ht. cbn [refreshCalls after_sending].
      repeat split; try lia; discriminate. }
  destruct (refresh_settles w (after_sending st [request_of w op st]))
    as (b & st2 & Heq & Hn & _ & _ & Hsent).
  rewrite Heq in Hrun. cbn [refreshCalls after_sending] in Hn.
  assert (Hst2 : resource_calls (sent st2) = (resource_calls (sent st) + 1)%nat
                 ∧ (token_exchanges (sent st2) <= token_exchanges (sent st) + 1)%nat).
  { destruct Hsent as [-> | ->].
    - rewrite Hg, Ht. lia.
    - rewrite resource_calls_app, token_exchanges_app, Hg, Ht.
      change (resource_calls [token_request (after_sending st [request_of w op st])])
        with 0%nat.
      change (token_exchanges [token_request (after_sending st [request_of w op st])])
        with 1%nat. lia. }
  destruct Hst2 as [Hg2 Ht2].
  destruct b.
  - destruct (IH st2 result st' Hrun) as (g & k & Hg' & Hk' & Ht' & Hb & Hgk & Hret).
    exists (S g), (S k). rewrite Hg', Hk', Hg2, Hn.
    repeat split; try lia. intros payload Hp. specialize (Hret payload Hp). lia.
  - simplify_eq. exists 1%nat, 1%nat. rewrite Hg2, Hn.
    repeat split; try lia; discriminate.
Qed.

(** X11: a client that holds no refresh token, as one built from
    WEVERSE_API_TOKEN alone, does not retry.  On a 401 it sends no token
    exchange and no second resource call, and throws the wrapped 401 error. *)
Theorem without_refresh_token_no_retry op st error :
  truthy (refreshToken st) = false ->
  respond w (length (sent st)) (request_of w op st) = Throw error ->
  is_401 error = true ->
  ∀ fuel,
    invoke w (S fuel) op st
    = Some (Throw (wrapped_error op error),
            entered (after_sending st [request_of w op st])).
Proof.
  intros Hno Hr H401 fuel.
  apply (invoke_refresh_failed w fuel op st error); [done|done|].
  by apply refresh_without_token.
Qed.

(** X12: once the platform has answered the credentials POST with a truthy
    [access_token], [login] installs that token and the [refresh_token] of
    the answer, even when there is none: a refresh token stored before is
    lost, and from then on [refreshAccessToken] fails without sending a
    request.  The call returns true exactly when the header could be built
    from the access token. *)
Theorem login_replaces_refresh_token email password st init encrypted r :
  respond w (length (sent st)) (AccountGet LOGIN_INITIALIZE_URL) = Return init ->
  rsa_oaep w password = Return encrypted ->
  respond w (S (length (sent st))) (login_request email encrypted) = Return r ->
  truthy (field r "access_token") = true ->
  ∃ b st',
    login w email password st = (Return b, st')
    ∧ b = stringifies (field r "access_token")
    ∧ token st' = field r "access_token"
    ∧ refreshToken st' = field r "refresh_token"
    ∧ authorization st' = (if b then Some (Bearer (field r "access_token"))
                           else authorization st)
    ∧ (truthy (field r "refresh_token") = false ->
       refreshAccessToken w st' = (Return false, entered st')).
Proof.
  intros H0 H1 H2 Hf. destruct (stringifies (field r "access_token")) eqn:Hs.
  - eexists _, _. split; [by eapply login_granted|].
    cbn [token refreshToken authorization]. repeat split.
    intros Hno. by apply refresh_without_token.
  - eexists _, _. split; [by eapply login_header_fails|].
    cbn [token refreshToken authorization]. repeat split.
    intros Hno. by apply refresh_without_token.
Qed.

(** X13: [login] sends the initialize GET and after it at most the
    credentials POST, which carries the encrypted password; it sends nothing
    else and never calls [refreshAccessToken]. *)
Theorem login_requests email password st :
  let st' := (login w email password st).2 in
  refreshCalls st' = refreshCalls st
  ∧ (sent st' = sent st ++ [AccountGet LOGIN_INITIALIZE_URL]
     ∨ ∃ encrypted,
         rsa_oaep w password = Return encrypted
         ∧ sent st' = sent st ++ [AccountGet LOGIN_INITIALIZE_URL;
                                  login_request email encrypted]).
Proof.
  cbn zeta.
  destruct (login_cases w email password st)
    as [-> | [(enc & He & ->) | [(enc & r & He & _ & _ & _ & ->)
                                | (enc & r & He & _ & _ & _ & ->)]]]; cbn.
  - split; [done|by left].
  - split; [done|]. right. by exists enc.
  - split; [done|]. right. by exists enc.
  - split; [done|]. right. by exists enc.
Qed.

End ClientOperations.

Lemma without_refresh_token_no_retry_witness :
  fst <$> getCommunities rejecting_platform 5 (create (Some "env-token"))
  = Some (Throw (Error "Failed to get communities: Request failed with status code 401")).
Proof.
  unfold getCommunities.
  rewrite (without_refresh_token_no_retry rejecting_platform GetCommunities
             (create (Some "env-token")) unauthorized eq_refl eq_refl eq_refl 4%nat).
  reflexivity.
Defined.

Lemma login_replaces_refresh_token_witness :
  ∃ st',
    login access_only_platform "fan@example.com" "secret-password" logged_in
    = (Return true, st')
    ∧ token st' = JStr "A1"
    ∧ refreshToken st' = JUndefined
    ∧ refreshAccessToken access_only_platform st' = (Return false, entered st').
Proof.
  destruct (login_replaces_refresh_token access_only_platform "fan@example.com"
              "secret-password" logged_in access_only_login "b64-ciphertext"
              access_only_login eq_refl eq_refl eq_refl eq_refl)
    as (b & st' & Heq & Hb & Ht & Hr & _ & Hfail).
  exists st'. split; [by rewrite Heq, Hb|]. split; [exact Ht|]. split; [exact Hr|].
  apply Hfail. reflexivity.
Defined.


(** After a login answered with a token that has no string, the header is
    not the one of [this.token]. *)
Example header_of_unconvertible_token :
  let st := (login unconvertible_token_platform "fan@example.com" "secret-password"
               logged_in).2 in
  token st = JObj [("toString", JNum 1)]
  ∧ authorization st = Some (Bearer (JStr "A0")).
Proof. by vm_compute. Qed.

Lemma thrown_errors_are_wrapped_witness :
  response (wrapped_error (GetPost "9") timeout_error) = None.
Proof.
  destruct (thrown_errors_are_wrapped (failing_platform timeout_error) 1 (GetPost "9")
              logged_in (wrapped_error (GetPost "9") timeout_error)
              (after_sending logged_in [request_of (failing_platform timeout_error) (GetPost "9") logged_in]) eq_refl)
    as [Hnone _].
  exact Hnone.
Defined.

Lemma calls_and_refreshes_witness :
  ∃ g k,
    resource_calls (sent (after_sending (refreshed_once (expiring_platform 1 communities_payload) GetCommunities)
                            [request_of (expiring_platform 1 communities_payload) GetCommunities (refreshed_once (expiring_platform 1 communities_payload) GetCommunities)]))
    = (resource_calls (sent logged_in) + g)%nat
    ∧ g = (k + 1)%nat.
Proof.
  destruct (calls_and_refreshes (expiring_platform 1 communities_payload) 2 GetCommunities
              logged_in (Return communities_payload)
              (after_sending (refreshed_once (expiring_platform 1 communities_payload) GetCommunities)
                 [request_of (expiring_platform 1 communities_payload) GetCommunities (refreshed_once (expiring_platform 1 communities_payload) GetCommunities)]) eq_refl)
    as (g & k & Hg & _ & _ & _ & _ & Hret).
  exists g, k. split; [exact Hg|]. by apply (Hret communities_payload).
Defined.

(* ===================================================================== *)
(** ** Properties of the .env reader *)
(* ===================================================================== *)

Section EnvProperties.

Implicit Types (env : gmap string string) (line key value rest : string).

Lemma append_cons (ch : Ascii.ascii) (a b : string) :
  String ch a +:+ b = String ch (a +:+ b).
Proof. reflexivity. Qed.

(** [split] up to the first separator. *)
Lemma split_first sep a : ∀ b,
  mentions sep a = false ->
  Env.split sep (a +:+ String sep b) = a :: Env.split sep b.
Proof.
  induction a as [|ch a IH]; intros b Hno.
  - change (EmptyString +:+ String sep b) with (String sep b).
    cbn [Env.split]. by rewrite Ascii.eqb_refl.
  - cbn [mentions] in Hno. apply orb_false_iff in Hno as [Hch Hno].
    rewrite append_cons. cbn [Env.split]. by rewrite Hch, IH.
Qed.

Lemma split_whole sep a : mentions sep a = false -> Env.split sep a = [a].
Proof.
  induction a as [|ch a IH]; intros Hno; [done|].
  cbn [mentions] in Hno. apply orb_false_iff in Hno as [Hch Hno].
  cbn [Env.split]. by rewrite Hch, IH.
Qed.

Lemma eqb_empty_false s : s ≠ "" -> String.eqb s "" = false.
Proof. by destruct s. Qed.

Lemma append_not_empty a b : a ≠ "" -> String.eqb (a +:+ b) "" = false.
Proof. by destruct a. Qed.

Lemma prefix_hash_append a b :
  a ≠ "" -> String.prefix "#" (a +:+ b) = String.prefix "#" a.
Proof.
  destruct a as [|ch a]; [done|]. intros _. rewrite append_cons.
  cbn [String.prefix].
  destruct (Ascii.ascii_dec "#" ch); [|done].
  generalize (a +:+ b). intros s. by destruct s, a.
Qed.

(** A line that is empty, starts with '#' or has no '=' sets nothing; nor
    does a line whose key or value is empty. *)
Lemma load_line_skips env line :
  line = "" ∨ String.prefix "#" line = true ∨ mentions "=" line = false ->
  Env.load_line env line = env.
Proof.
  unfold Env.load_line. intros [-> | [-> | Hno]]; [done| |].
  - by rewrite andb_false_r.
  - rewrite (split_whole _ _ Hno). by destruct (_ && _).
Qed.

Lemma c_string_without_nul s : mentions "000" s = false -> Env.c_string s = s.
Proof.
  induction s as [|ch s IH]; [done|]. cbn [mentions Env.c_string].
  intros [Hch Hs]%orb_false_iff. by rewrite Hch, IH.
Qed.

(** X14: only the text between the first and the second '=' of a line is
    taken as the value.  A line [key=value=rest] does exactly what the line
    [key=value] does, namely [process.env[key.trim()] = value.trim()]; what
    follows the second '=' is dropped.  When the trimmed key is not empty
    and neither it nor the trimmed value holds a NUL, the variable named by
    the trimmed key is set to the trimmed value; when the trimmed key is
    empty nothing is set. *)
Theorem env_value_stops_at_second_equals env key value rest :
  key ≠ "" -> value ≠ "" ->
  String.prefix "#" key = false ->
  mentions "=" key = false -> mentions "=" value = false ->
  Env.load_line env (key +:+ "=" +:+ value +:+ "=" +:+ rest)
  = Env.load_line env (key +:+ "=" +:+ value)
  ∧ (Env.trim key ≠ "" ->
     mentions "000" (Env.trim key) = false -> mentions "000" (Env.trim value) = false ->
     Env.load_line env (key +:+ "=" +:+ value +:+ "=" +:+ rest)
     = <[Env.trim key := Env.trim value]> env)
  ∧ (Env.trim key = "" ->
     Env.load_line env (key +:+ "=" +:+ value +:+ "=" +:+ rest) = env).
Proof.
  intros Hk Hv Hhash Hnk Hnv.
  assert (Hlong : Env.load_line env (key +:+ "=" +:+ value +:+ "=" +:+ rest)
                  = Env.setenv (Env.trim key) (Env.trim value) env).
  { unfold Env.load_line.
    rewrite !append_not_empty, !prefix_hash_append, Hhash by done. cbn [negb andb].
    change ("=" +:+ value +:+ "=" +:+ rest) with (String "=" (value +:+ String "=" rest)).
    rewrite !split_first by done. by rewrite !eqb_empty_false. }
  assert (Hshort : Env.load_line env (key +:+ "=" +:+ value)
                   = Env.setenv (Env.trim key) (Env.trim value) env).
  { unfold Env.load_line.
    rewrite !append_not_empty, !prefix_hash_append, Hhash by done. cbn [negb andb].
    change ("=" +:+ value) with (String "=" value).
    rewrite !split_first by done. rewrite (split_whole _ value) by done.
    by rewrite !eqb_empty_false. }
  split; [by rewrite Hlong, Hshort|]. rewrite Hlong. unfold Env.setenv. split.
  - intros Hne Hn1 Hn2. rewrite !c_string_without_nul by done.
    by rewrite eqb_empty_false.
  - by intros ->.
Qed.

(** X15: a file in which every line is empty, a comment or without '=' is
    read ([true]) and changes nothing; a file that is missing or cannot be
    read gives [false] and changes nothing. *)
Theorem env_file_without_assignments env :
  (∀ text,
     Forall (λ line, line = "" ∨ String.prefix "#" line = true
                     ∨ mentions "=" line = false) (Env.split "010" text) ->
     Env.loadEnvManually (Env.Content text) env = (true, env))
  ∧ Env.loadEnvManually Env.Missing env = (false, env)
  ∧ ∀ e, Env.loadEnvManually (Env.Unreadable e) env = (false, env).
Proof.
  split; [|done]. intros text Hall. unfold Env.loadEnvManually. f_equal.
  induction Hall as [|line lines Hline _ IH]; [done|].
  cbn [fold_left]. by rewrite load_line_skips.
Qed.

End EnvProperties.

Lemma env_value_stops_at_second_equals_witness :
  Env.load_line ∅ "WEVERSE_API_TOKEN=dG9rZW4=" = {[ "WEVERSE_API_TOKEN" := "dG9rZW4" ]}.
Proof.
  destruct (env_value_stops_at_second_equals ∅ "WEVERSE_API_TOKEN" "dG9rZW4" "")
    as (_ & Hcut & _); [discriminate | discriminate | reflexivity | reflexivity | reflexivity |].
  apply Hcut; [discriminate | reflexivity | reflexivity].
Defined.

(** A line whose key is white space only sets nothing, and [trim] removes
    the no-break space U+00A0 as well. *)
Example env_blank_key :
  Env.load_line ∅ " =x=y" = ∅
  ∧ Env.trim (String "194" (String "160" "TOKEN ")) = "TOKEN".
Proof. by vm_compute. Qed.

Lemma env_file_without_assignments_witness :
  Env.loadEnvManually
    (Env.Content (text_of_lines ["# credentials"; "WEVERSE_EMAIL"; ""])) ∅
  = (true, ∅).
Proof.
  destruct (env_file_without_assignments ∅) as [Hskip _].
  apply Hskip.
  change (Env.split "010" (text_of_lines ["# credentials"; "WEVERSE_EMAIL"; ""]))
    with ["# credentials"; "WEVERSE_EMAIL"; ""].
  constructor; [right; left; reflexivity|].
  constructor; [right; right; reflexivity|].
  constructor; [left; reflexivity|].
  constructor.
Defined.

(** A file as it is written in practice. *)
Example env_file_example :
  let file := Env.Content (text_of_lines
                ["# credentials";
                 "WEVERSE_EMAIL = fan@example.com";
                 "WEVERSE_PASSWORD=a=b";
                 "EMPTY=";
                 ""]) in
  (Env.loadEnvManually file ∅).2
  = {[ "WEVERSE_EMAIL" := "fan@example.com"; "WEVERSE_PASSWORD" := "a" ]}.
Proof. by vm_compute. Qed.

(* ===================================================================== *)
(** ** Properties of the routes *)
(* ===================================================================== *)

Section RouteProperties.

Import Server Routes.

Variable w : upstream.

Implicit Types (st : client) (op : operation) (c : NodeCache.store) (now : Z).

(** A miss stays a miss until something is written. *)
Lemma miss_later key now later c :
  now <= later -> (Cache.get now key c).1 = JNull -> (Cache.get later key c).1 = JNull.
Proof.
  rewrite !cache_get_value. intros Hle.
  destruct (NodeCache.entries c !! key) as [d|]; [|done].
  destruct (NodeCache.expired now d) eqn:He.
  - by rewrite (expired_later now later d).
  - destruct (truthy (NodeCache.v d)) eqn:Ht.
    + intros Hnull. by rewrite Hnull in Ht.
    + by destruct (NodeCache.expired later d).
Qed.

Lemma falsy_is_null key now c :
  truthy (Cache.get now key c).1 = false -> (Cache.get now key c).1 = JNull.
Proof. destruct (cache_get_null_or_truthy now key c) as [H|H]; [done|congruence]. Qed.

(** On a hit the middleware does not call the rest of the chain. *)
Lemma cacheMiddleware_hit namespace req next c now :
  truthy (Cache.get now (request_key namespace req) c).1 = true ->
  cacheMiddleware namespace req next (incoming c now)
  = {| res := deliver (JsonBody (Cache.get now (request_key namespace req) c).1) new_response;
       cache := (Cache.get now (request_key namespace req) c).2;
       clock := now |}.
Proof.
  intros Hhit. unfold cacheMiddleware, incoming. cbn [res cache clock].
  destruct (Cache.get now (request_key namespace req) c) as [cachedData cache1].
  cbn [fst snd] in *. by rewrite Hhit.
Qed.

(** On a miss the middleware runs the handler behind the wrapper. *)
Lemma cacheMiddleware_miss namespace req next c now :
  truthy (Cache.get now (request_key namespace req) c).1 = false ->
  cacheMiddleware namespace req next (incoming c now)
  = run next
      {| res := {| statusCode := 200; headers := []; body := None;
                   json_hook := Some (request_key namespace req) |};
         cache := (Cache.get now (request_key namespace req) c).2;
         clock := now |}.
Proof.
  intros Hmiss. unfold cacheMiddleware, incoming. cbn [res cache clock].
  destruct (Cache.get now (request_key namespace req) c) as [cachedData cache1].
  cbn [fst snd] in *. by rewrite Hmiss.
Qed.

(** X16: a request that fails [checkAuth] (no token on the client) is
    answered 401, and one that fails validation is answered 400 with the
    Joi message; in both cases the rest of the chain is not run, whatever it
    is: the client is not called, nothing is sent to the platform and the
    cache is neither read nor written.  So it is on every JSON route (the
    communities route has no validation). *)
Theorem rejected_requests_touch_nothing fuel route invalid req elapsed st c now :
  (∀ next, truthy (token st) = false ->
   ∃ x', checkAuth st next (incoming c now) = Some (st, x')
     ∧ statusCode (res x') = 401
     ∧ body (res x') = Some (JsonBody (error_body "Not authenticated with Weverse"))
     ∧ cache x' = c)
  ∧ (∀ next msg,
     ∃ x', validate (Some msg) st next (incoming c now) = Some (st, x')
       ∧ statusCode (res x') = 400
       ∧ body (res x') = Some (JsonBody (error_body msg))
       ∧ cache x' = c)
  ∧ (truthy (token st) = false ->
   ∃ x', api_route w fuel route invalid req elapsed st (incoming c now)
         = Some (st, x')
     ∧ statusCode (res x') = 401
     ∧ body (res x') = Some (JsonBody (error_body "Not authenticated with Weverse"))
     ∧ cache x' = c)
  ∧ (∀ msg, truthy (token st) = true -> is_validated route = true ->
     invalid = Some msg ->
     ∃ x', api_route w fuel route invalid req elapsed st (incoming c now)
           = Some (st, x')
       ∧ statusCode (res x') = 400
       ∧ body (res x') = Some (JsonBody (error_body msg))
       ∧ cache x' = c).
Proof.
  split; [|split; [|split]].
  - intros next Hno. unfold checkAuth. rewrite Hno. cbn [negb].
    eexists. split; [reflexivity|]. done.
  - intros next msg. unfold validate. eexists. split; [reflexivity|]. done.
  - intros Hno. unfold api_route, checkAuth. rewrite Hno. cbn [negb].
    eexists. split; [reflexivity|]. done.
  - intros msg Hyes Hv ->. unfold api_route, checkAuth, validate.
    rewrite Hyes, Hv. cbn [negb].
    eexists. split; [reflexivity|]. done.
Qed.

(** X17: when the client operation of a cached JSON route (communities,
    post, posts, artists, media, comments) throws, the route answers 500
    with the message of the error as JSON, and nothing is written to the
    cache: the store is as the lookup left it and later reads of the key
    still miss. *)
Theorem route_error_is_not_cached fuel route ns req elapsed st c now e st' :
  namespace_of route = Some ns ->
  truthy (token st) = true ->
  truthy (Cache.get now (request_key ns req) c).1 = false ->
  invoke w fuel (operation_of route) st = Some (Throw e, st') ->
  ∃ x', api_route w fuel route None req elapsed st (incoming c now) = Some (st', x')
    ∧ statusCode (res x') = 500
    ∧ body (res x') = Some (JsonBody (error_body (message e)))
    ∧ cache x' = (Cache.get now (request_key ns req) c).2
    ∧ ∀ later, now <= later -> (Cache.get later (request_key ns req) (cache x')).1 = JNull.
Proof.
  intros Hns Hauth Hmiss Hrun. unfold api_route, checkAuth, validate.
  rewrite Hauth, Hns. cbn [negb incoming clock cache].
  replace (if is_validated route then None else None) with (@None string)
    by (by destruct (is_validated route)).
  rewrite Hmiss, Hrun.
  eexists. split; [reflexivity|]. rewrite cacheMiddleware_miss by done.
  cbn. repeat split. intros later Hle.
  rewrite cache_get_after_get by done.
  apply (miss_later _ now); [done|]. by apply falsy_is_null.
Qed.

(** X18: when the client operation of a cached JSON route returns a truthy
    payload, the route answers 200 with it and stores it; a request to a
    route of the same namespace for the same target that arrives within 300
    seconds of that answer is served the same payload from the cache without
    calling the client: no request is sent to the platform, whatever the
    platform would have answered. *)
Theorem second_request_is_served_from_cache
    fuel route ns req elapsed st c now payload st1 st2 now2 :
  namespace_of route = Some ns ->
  truthy (token st) = true ->
  truthy (Cache.get now (request_key ns req) c).1 = false ->
  invoke w fuel (operation_of route) st = Some (Return payload, st1) ->
  truthy payload = true ->
  truthy (token st2) = true ->
  now2 <= now + elapsed + Cache.DEFAULT_TTL * 1000 ->
  ∃ x1,
    api_route w fuel route None req elapsed st (incoming c now) = Some (st1, x1)
    ∧ statusCode (res x1) = 200
    ∧ body (res x1) = Some (JsonBody payload)
    ∧ ∀ w2 fuel2 route2 elapsed2, namespace_of route2 = Some ns -> ∃ x2,
        api_route w2 fuel2 route2 None req elapsed2 st2 (incoming (cache x1) now2)
        = Some (st2, x2)
        ∧ statusCode (res x2) = 200
        ∧ body (res x2) = Some (JsonBody payload).
Proof.
  intros Hns Hauth Hmiss Hrun Hp Hauth2 Hlive. unfold api_route at 1.
  unfold checkAuth, validate.
  rewrite Hauth, Hns. cbn [negb incoming clock cache].
  replace (if is_validated route then None else None) with (@None string)
    by (by destruct (is_validated route)).
  rewrite Hmiss, Hrun.
  eexists. split; [reflexivity|]. rewrite cacheMiddleware_miss by done.
  cbn [handler_calls run call res_json res cache clock statusCode json_hook body deliver].
  cbn [Z.eqb Pos.eqb]. split; [done|]. split; [done|].
  intros w2 fuel2 route2 elapsed2 Hns2.
  assert (Hhit : (Cache.get now2 (request_key ns req)
                    (Cache.set (now + elapsed) (request_key ns req) payload None
                       (Cache.get now (request_key ns req) c).2).2).1 = payload).
  { apply cache_get_set_live; [|done]. apply default_ttl_live. lia. }
  unfold api_route, checkAuth, validate. rewrite Hauth2, Hns2.
  cbn [negb incoming clock cache].
  replace (if is_validated route2 then None else None) with (@None string)
    by (by destruct (is_validated route2)).
  rewrite Hhit, Hp.
  eexists. split; [reflexivity|].
  rewrite cacheMiddleware_hit by (by rewrite Hhit). by rewrite Hhit.
Qed.

(** X19: the login route.  A body that cannot be parsed is answered 500 by
    the error middleware and one that the schema rejects is answered 400; in
    both cases [login] is not called and the client is untouched.  With
    credentials the route calls [login] once and leaves the client as [login]
    left it: it answers 200 when [login] returned true, in which case the
    client holds a truthy token with its header, so that [checkAuth] lets
    requests pass, and 401 "Authentication failed" when [login] returned
    false; the 500 of the handler's catch block is never sent, because
    [login] never throws.  The cache is not touched. *)
Theorem auth_login_route_answers posted st c now :
  let out := auth_login_route w posted st (incoming c now) in
  cache out.2 = c
  ∧ (posted = Unparsable ->
     out.1 = st ∧ statusCode (res out.2) = 500
     ∧ body (res out.2) = Some (JsonBody (error_body "Something went wrong!")))
  ∧ (∀ msg, posted = Rejected msg ->
     out.1 = st ∧ statusCode (res out.2) = 400
     ∧ body (res out.2) = Some (JsonBody (error_body msg)))
  ∧ (∀ email password, posted = Credentials email password ->
     out.1 = (login w email password st).2
     ∧ ((login w email password st).1 = Return true
        ∧ statusCode (res out.2) = 200
        ∧ body (res out.2)
          = Some (JsonBody (JObj [("message", JStr "Authentication successful")]))
        ∧ truthy (token out.1) = true
        ∧ authorization out.1 = Some (Bearer (token out.1))
        ∨ (login w email password st).1 = Return false
          ∧ statusCode (res out.2) = 401
          ∧ body (res out.2) = Some (JsonBody (error_body "Authentication failed")))).
Proof.
  cbn zeta. unfold auth_login_route. destruct posted as [|msg|email password].
  - cbn. split; [done|]. split; [done|]. split; [intros msg|intros email password];
      discriminate.
  - cbn. split; [done|]. split; [discriminate|]. split.
    + by intros ? [= ->].
    + intros email password. discriminate.
  - split.
    { destruct (login_cases w email password st)
        as [-> | [(enc & _ & ->) | [(enc & r & _ & _ & _ & _ & ->)
                                   | (enc & r & _ & _ & _ & _ & ->)]]]; done. }
    split; [discriminate|]. split; [intros msg; discriminate|].
    intros ? ? [= <- <-].
    destruct (login_cases w email password st)
      as [-> | [(enc & _ & ->) | [(enc & r & _ & _ & Hf & _ & ->)
                                 | (enc & r & _ & _ & _ & _ & ->)]]]; cbn;
      (split; [done|]); [right|right|left|right]; done.
Qed.

(** X20: the flush route refuses in production with 403 and leaves the
    cache as it is; elsewhere it answers 200 and empties the cache, so that
    every key misses afterwards. *)
Theorem cache_flush_route_guard c now :
  (statusCode (res (cache_flush_route true (incoming c now))) = 403
   ∧ cache (cache_flush_route true (incoming c now)) = c)
  ∧ (statusCode (res (cache_flush_route false (incoming c now))) = 200
     ∧ ∀ key later,
         (Cache.get later key (cache (cache_flush_route false (incoming c now)))).1 = JNull).
Proof.
  split; [done|]. split; [done|]. intros key later. cbn.
  rewrite cache_get_value. unfold Cache.flush, NodeCache.flushAll. cbn [NodeCache.entries].
  by rewrite lookup_empty.
Qed.

End RouteProperties.

Lemma rejected_requests_touch_nothing_witness :
  ∃ x',
    Routes.api_route rejecting_platform 0 (Routes.Post "9") (Some "postId is required")
      {| Server.originalUrl := Some "/api/posts/9"; Server.url := "/posts/9" |}
      25 logged_in (incoming Cache.instance 1000)
    = Some (logged_in, x')
    ∧ Server.statusCode (Server.res x') = 400.
Proof.
  destruct (rejected_requests_touch_nothing rejecting_platform 0 (Routes.Post "9")
              (Some "postId is required")
              {| Server.originalUrl := Some "/api/posts/9"; Server.url := "/posts/9" |}
              25 logged_in Cache.instance 1000) as (_ & _ & _ & Hbad).
  destruct (Hbad "postId is required" eq_refl eq_refl eq_refl) as (x' & Heq & Hs & _).
  exists x'. split; [exact Heq | exact Hs].
Defined.

(** Without a token the communities route answers 401. *)
Example communities_without_token :
  (λ out, (out.1, Server.statusCode (Server.res out.2)))
    <$> Routes.api_route rejecting_platform 0 Routes.Communities None
          {| Server.originalUrl := Some "/api/communities"; Server.url := "/communities" |}
          25 (create None) (incoming Cache.instance 1000)
  = Some (create None, 401).
Proof. by vm_compute. Qed.

Lemma route_error_is_not_cached_witness :
  ∃ x',
    Routes.api_route (failing_platform timeout_error) 1 (Routes.Post "9") None
      {| Server.originalUrl := Some "/api/posts/9"; Server.url := "/posts/9" |}
      10000 logged_in (incoming Cache.instance 1000)
    = Some (after_sending logged_in
              [request_of (failing_platform timeout_error) (GetPost "9") logged_in], x')
    ∧ Server.statusCode (Server.res x') = 500
    ∧ Server.body (Server.res x')
      = Some (Server.JsonBody
                (Routes.error_body "Failed to get post: timeout of 10000ms exceeded")).
Proof.
  destruct (route_error_is_not_cached (failing_platform timeout_error) 1 (Routes.Post "9")
              "post"
              {| Server.originalUrl := Some "/api/posts/9"; Server.url := "/posts/9" |}
              10000 logged_in Cache.instance 1000
              (wrapped_error (GetPost "9") timeout_error)
              (after_sending logged_in
                 [request_of (failing_platform timeout_error) (GetPost "9") logged_in])
              eq_refl eq_refl eq_refl eq_refl)
    as (x' & Heq & Hs & Hb & _).
  exists x'. split; [exact Heq|]. split; [exact Hs | exact Hb].
Defined.

Lemma second_request_is_served_from_cache_witness :
  ∃ x1,
    Routes.api_route (serving_platform communities_payload) 1 Routes.Communities None
      {| Server.originalUrl := Some "/api/communities"; Server.url := "/communities" |}
      40 logged_in (incoming Cache.instance 1000)
    = Some (after_sending logged_in
              [request_of (serving_platform communities_payload) GetCommunities logged_in],
            x1)
    ∧ ∃ x2,
        Routes.api_route rejecting_platform 0 Routes.Communities None
          {| Server.originalUrl := Some "/api/communities"; Server.url := "/communities" |}
          40 logged_in (incoming (Server.cache x1) 200000)
        = Some (logged_in, x2)
        ∧ Server.body (Server.res x2) = Some (Server.JsonBody communities_payload).
Proof.
  destruct (second_request_is_served_from_cache (serving_platform communities_payload) 1
              Routes.Communities "communities"
              {| Server.originalUrl := Some "/api/communities"; Server.url := "/communities" |}
              40 logged_in Cache.instance 1000 communities_payload
              (after_sending logged_in
                 [request_of (serving_platform communities_payload) GetCommunities
                    logged_in])
              logged_in 200000 eq_refl eq_refl eq_refl eq_refl eq_refl eq_refl)
    as (x1 & Heq & _ & _ & Hnext).
  { unfold Cache.DEFAULT_TTL. lia. }
  exists x1. split; [exact Heq|].
  destruct (Hnext rejecting_platform 0%nat Routes.Communities 40 eq_refl)
    as (x2 & Heq2 & _ & Hb).
  exists x2. split; [exact Heq2 | exact Hb].
Defined.

Lemma auth_login_route_answers_witness :
  let out := Routes.auth_login_route (failing_platform unauthorized)
               (Routes.Credentials "fan@example.com" "secret-password")
               (create None) (incoming Cache.instance 1000) in
  out.1 = (login (failing_platform unauthorized) "fan@example.com" "secret-password"
             (create None)).2
  ∧ Server.statusCode (Server.res out.2) = 401.
Proof.
  cbn zeta.
  destruct (auth_login_route_answers (failing_platform unauthorized)
              (Routes.Credentials "fan@example.com" "secret-password")
              (create None) Cache.instance 1000)
    as (_ & _ & _ & Hcred).
  destruct (Hcred "fan@example.com" "secret-password" eq_refl)
    as [Hst [(Htrue & _) | (_ & Hs & _)]].
  - vm_compute in Htrue. discriminate Htrue.
  - split; [exact Hst | exact Hs].
Defined.

(** The login route on a body that is not JSON, and on a login whose answer
    carries a token without a string: the route answers 401 and the client
    holds the tokens of that answer. *)
Example auth_login_route_examples :
  let broken := Routes.auth_login_route rejecting_platform Routes.Unparsable
                  (create None) (incoming Cache.instance 1000) in
  let slip := Routes.auth_login_route unconvertible_token_platform
                (Routes.Credentials "fan@example.com" "secret-password")
                (create None) (incoming Cache.instance 1000) in
  Server.statusCode (Server.res broken.2) = 500
  ∧ broken.1 = create None
  ∧ Server.statusCode (Server.res slip.2) = 401
  ∧ token slip.1 = JObj [("toString", JNum 1)].
Proof. by vm_compute. Qed.

